(** * Llama 3 pipeline example: prompt assembly and generation harness

    Shallow embedding of
    [python/llm/example/NPU/HF-Transformers-AutoModels/LLM/Pipeline-Models/llama3.py]:
    the chat-prompt builder [get_prompt] (called [build_prompt] in the
    specification), the choice between the low-bit checkpoint and the
    original checkpoint, and the three-pass generation loop. *)

From Stdlib Require Import Ascii String List NArith ZArith Bool Lia.
Import ListNotations.

(** ** Python strings

    A Python [str] is a sequence of Unicode code points. *)

Definition char := N.
Definition str := list char.

(** The code points of an ASCII literal. *)
Definition lit (s : string) : str :=
  List.map N_of_ascii (list_ascii_of_string s).

(** ['\n'] *)
Definition NL : char := 10%N.

(** [''.join(parts)] *)
Fixpoint join (parts : list str) : str :=
  match parts with
  | [] => []
  | p :: ps => p ++ join ps
  end.

(** [str.isspace] on one code point: the characters whose bidirectional
    class is WS, B or S, or whose category is Zs. *)
Definition isspace (c : char) : bool :=
  ((9 <=? c) && (c <=? 13) ||            (* \t \n \v \f \r *)
   (28 <=? c) && (c <=? 32) ||           (* FS GS RS US and the space *)
   (c =? 133) || (c =? 160) ||           (* NEL, no-break space *)
   (c =? 5760) ||                        (* Ogham space mark *)
   (8192 <=? c) && (c <=? 8202) ||       (* en quad .. hair space *)
   (c =? 8232) || (c =? 8233) ||         (* line and paragraph separator *)
   (c =? 8239) || (c =? 8287) ||         (* narrow no-break, medium math *)
   (c =? 12288))%N.                      (* ideographic space *)

(** The scan of [str.strip()]: skip whitespace from the left end, then
    from the right end, and return the slice in between. *)
Fixpoint lstrip (s : str) : str :=
  match s with
  | [] => []
  | c :: s' => if isspace c then lstrip s' else s
  end.

Definition rstrip (s : str) : str := rev (lstrip (rev s)).

Definition strip (s : str) : str := rstrip (lstrip s).

(** ** The prompt template *)

Definition BEGIN_OF_TEXT : str := lit "<|begin_of_text|>".
Definition EOT : str := lit "<|eot_id|>".
Definition SYSTEM_HEADER : str :=
  lit "<|start_header_id|>system<|end_header_id|>" ++ [NL; NL].
Definition USER_HEADER : str :=
  lit "<|start_header_id|>user<|end_header_id|>" ++ [NL; NL].
Definition ASSISTANT_HEADER : str :=
  lit "<|start_header_id|>assistant<|end_header_id|>" ++ [NL; NL].

(** [DEFAULT_SYSTEM_PROMPT]: a triple-quoted literal holding only an
    escaped line break, hence the empty string. *)
Definition DEFAULT_SYSTEM_PROMPT : str := [].

(** [s != ''] *)
Definition nonempty (s : str) : bool :=
  match s with [] => false | _ :: _ => true end.

(** [prompt_texts.append(x)] *)
Definition append (prompt_texts : list str) (x : str) : list str :=
  prompt_texts ++ [x].

(** The three f-strings of [get_prompt]. *)
Definition system_text (system_prompt : str) : str :=
  SYSTEM_HEADER ++ system_prompt ++ EOT.
Definition user_text (history_input : str) : str :=
  USER_HEADER ++ strip history_input ++ EOT.
Definition assistant_text (history_response : str) : str :=
  ASSISTANT_HEADER ++ strip history_response ++ EOT.
Definition final_text (user_input : str) : str :=
  USER_HEADER ++ strip user_input ++ EOT ++ ASSISTANT_HEADER.

(** The body of the [for] loop over [chat_history], from the list
    accumulated so far. *)
Fixpoint history_loop (prompt_texts : list str) (chat_history : list (str * str))
  : list str :=
  match chat_history with
  | [] => prompt_texts
  | (history_input, history_response) :: rest =>
      history_loop
        (append (append prompt_texts (user_text history_input))
                (assistant_text history_response))
        rest
  end.

(** The list [prompt_texts] as it stands just before the final [join]. *)
Definition prompt_texts_of (user_input : str) (chat_history : list (str * str))
  (system_prompt : str) : list str :=
  let prompt_texts := [BEGIN_OF_TEXT] in
  let prompt_texts :=
    if nonempty system_prompt
    then append prompt_texts (system_text system_prompt)
    else prompt_texts in
  let prompt_texts := history_loop prompt_texts chat_history in
  append prompt_texts (final_text user_input).

Definition get_prompt (user_input : str) (chat_history : list (str * str))
  (system_prompt : str) : str :=
  join (prompt_texts_of user_input chat_history system_prompt).

(** ** Statements in sequence

    Code that reads and changes a state [S] and returns a value. *)
Definition M (S A : Type) : Type := S -> A * S.

Definition ret {S A : Type} (a : A) : M S A := fun w => (a, w).

Definition bind {S A B : Type} (c : M S A) (k : A -> M S B) : M S B :=
  fun w => let (a, w') := c w in k a w'.

Notation "x <- c ;; k" := (bind c (fun x => k))
  (at level 61, c at next level, right associativity).
Notation "c ;; k" := (bind c (fun _ => k))
  (at level 61, right associativity).

(** [for x in l: body] *)
Fixpoint for_each {S A : Type} (l : list A) (body : A -> M S unit) : M S unit :=
  match l with
  | [] => ret tt
  | x :: l' => body x ;; for_each l' body
  end.

(** ** The builder, statement by statement

    [prompt_texts] is a list object: it lives in the interpreter's store
    of list objects, is reached through a reference, and is changed in
    place by [append]. *)
Definition heap := list (list str).
Definition ref := nat.

Fixpoint update (r : ref) (f : list str -> list str) (hp : heap) : heap :=
  match hp with
  | [] => []
  | l :: hp' =>
      match r with
      | O => f l :: hp'
      | S r' => l :: update r' f hp'
      end
  end.

(** [[x, ...]]: a new list object. *)
Definition new_list (items : list str) : M heap ref :=
  fun hp => (length hp, hp ++ [items]).

(** [r.append(x)] *)
Definition list_append (r : ref) (x : str) : M heap unit :=
  fun hp => (tt, update r (fun l => append l x) hp).

(** Reading the list behind [r]. *)
Definition list_items (r : ref) : M heap (list str) :=
  fun hp => (nth r hp [], hp).

Definition get_prompt_statements (user_input : str)
  (chat_history : list (str * str)) (system_prompt : str) : M heap str :=
  prompt_texts <- new_list [BEGIN_OF_TEXT] ;;
  (if nonempty system_prompt
   then list_append prompt_texts (system_text system_prompt)
   else ret tt) ;;
  for_each chat_history (fun turn =>
    list_append prompt_texts (user_text (fst turn)) ;;
    list_append prompt_texts (assistant_text (snd turn))) ;;
  list_append prompt_texts (final_text user_input) ;;
  items <- list_items prompt_texts ;;
  ret (join items).

(** ** Reading the rendered prompt

    [s.startswith(p)], and the number of positions of [s] at which [p]
    occurs.  The role headers cannot overlap themselves, so for them this
    is [s.count(p)]. *)
Fixpoint startswith (s p : str) {struct p} : bool :=
  match p with
  | [] => true
  | a :: p' =>
      match s with
      | [] => false
      | b :: s' => (a =? b)%N && startswith s' p'
      end
  end.

Fixpoint occurrences (p s : str) : nat :=
  match s with
  | [] => 0
  | _ :: s' => (if startswith s p then 1 else 0) + occurrences p s'
  end.

(** [x] and [y] differ at a position that both have. *)
Fixpoint clash (x y : str) {struct x} : bool :=
  match x, y with
  | a :: x', b :: y' => negb (a =? b)%N || clash x' y'
  | _, _ => false
  end.

(** No proper, non-empty prefix of [p] can be completed to [p] by a text
    that starts with [e]. *)
Definition no_straddle (p e : str) : bool :=
  forallb (fun j => clash (skipn j p) e) (seq 1 (length p - 1)).

(** A text with neither leading nor trailing whitespace. *)
Definition edge_clean (m : str) : bool :=
  match m with
  | [] => true
  | c :: _ => negb (isspace c) && negb (isspace (last m c))
  end.

(** The part of the prompt that follows the optional system block: one
    user block and one assistant block per turn, then the final user
    block with the open assistant header. *)
Definition pair_text (turn : str * str) : str :=
  user_text (fst turn) ++ assistant_text (snd turn).

Definition body (user_input : str) (chat_history : list (str * str)) : str :=
  flat_map pair_text chat_history ++ final_text user_input.

(** Occurrences of [p] inside the texts of the conversation, as they are
    rendered. *)
Fixpoint occurrences_in_history (p : str) (chat_history : list (str * str))
  : nat :=
  match chat_history with
  | [] => 0
  | turn :: rest =>
      occurrences p (strip (fst turn)) + occurrences p (strip (snd turn)) +
      occurrences_in_history p rest
  end.

(** A text and what is left of it once whitespace is removed from both
    ends. *)
Definition whitespace (l : str) : bool := forallb isspace l.

Definition padded (s core : str) : Prop :=
  exists l r, s = l ++ core ++ r /\ whitespace l = true /\ whitespace r = true.

Definition padded_turn (turn core : str * str) : Prop :=
  padded (fst turn) (fst core) /\ padded (snd turn) (snd core).

Definition clean_turn (turn : str * str) : Prop :=
  edge_clean (fst turn) = true /\ edge_clean (snd turn) = true.

(** A role block holding [text] as it is. *)
Definition block (header text : str) : str := header ++ text ++ EOT.

(** No text handed to the builder contains [p]. *)
Definition texts_free (p user_input : str) (chat_history : list (str * str))
  (system_prompt : str) : Prop :=
  occurrences p user_input = 0 /\
  occurrences p system_prompt = 0 /\
  Forall (fun turn => occurrences p (fst turn) = 0 /\
                      occurrences p (snd turn) = 0) chat_history.

(** The pieces of [prompt_texts] that open with the system header. *)
Definition system_pieces (prompt_texts : list str) : list str :=
  filter (fun piece => startswith piece SYSTEM_HEADER) prompt_texts.

(** ** Command line *)

Record Args := {
  repo_id_or_model_path : str;
  lowbit_path : str;
  prompt : str;
  n_predict : Z;
  max_context_len : Z;
  max_prompt_len : Z;
  quantization_group_size : Z;
  disable_transpose_value_cache : bool;
  disable_streaming : bool
}.

(** ** Loading the model

    The calls made to the inference library while the model and the
    tokenizer are set up, with the arguments that vary.  The disk is the
    library's and the operating system's: [path_exists] is
    [os.path.exists], and [after] is what a call leaves on disk. *)
Inductive library_call :=
| from_pretrained (model_path : str)
    (max_context_len max_prompt_len quantization_group_size : Z)
    (transpose_value_cache : bool)
| load_low_bit (path : str) (max_context_len max_prompt_len : Z)
    (transpose_value_cache : bool)
| tokenizer_from_pretrained (model_path : str)
| save_low_bit (path : str).

Record FileSystem := {
  disk : Type;
  path_exists : disk -> str -> bool;
  after : library_call -> disk -> disk
}.

Definition is_save (c : library_call) : bool :=
  match c with save_low_bit _ => true | _ => false end.

(** Loading a model or a tokenizer leaves the existence of [path] as it
    was. *)
Definition loads_keep (F : FileSystem) (path : str) : Prop :=
  forall c d, is_save c = false ->
    path_exists F (after F c d) path = path_exists F d path.

Definition load_model (F : FileSystem) (args : Args) (d : disk F)
  : list library_call * disk F :=
  let model_path := repo_id_or_model_path args in
  let model :=
    if negb (nonempty (lowbit_path args)) ||
       negb (path_exists F d (lowbit_path args))
    then from_pretrained model_path (max_context_len args)
           (max_prompt_len args) (quantization_group_size args)
           (negb (disable_transpose_value_cache args))
    else load_low_bit (lowbit_path args) (max_context_len args)
           (max_prompt_len args) (negb (disable_transpose_value_cache args)) in
  let d := after F model d in
  let tokenizer := tokenizer_from_pretrained model_path in
  let d := after F tokenizer d in
  if nonempty (lowbit_path args) && negb (path_exists F d (lowbit_path args))
  then ([model; tokenizer; save_low_bit (lowbit_path args)],
        after F (save_low_bit (lowbit_path args)) d)
  else ([model; tokenizer], d).

(** A disk as the set of paths present on it; saving a low-bit model
    creates its folder. *)
Fixpoint str_eqb (a b : str) : bool :=
  match a, b with
  | [], [] => true
  | x :: a', y :: b' => (x =? y)%N && str_eqb a' b'
  | _, _ => false
  end.

Definition path_list : FileSystem := {|
  disk := list str;
  path_exists := fun d path => existsb (str_eqb path) d;
  after := fun c d => match c with save_low_bit path => path :: d | _ => d end
|}.

(** ** The generation loop

    The collaborators of the loop: the tokenizer, the model, and the
    clock behind [time.time()].  Calls to [generate] and readings of the
    clock are numbered in the order in which they are made. *)
Record TimeOps := {
  time : Type;
  tzero : time;
  tsub : time -> time -> time;
  tle : time -> time -> bool
}.

(** Subtracting an earlier reading from a later one is not negative. *)
Definition sign_correct (T : TimeOps) : Prop :=
  forall a b, tle T a b = true -> tle T (tzero T) (tsub T b a) = true.

Record TextStreamer := { skip_special_tokens : bool }.

Record Collaborators := {
  token : Type;
  clock_ops : TimeOps;
  encode : str -> list token;
  decode : list token -> bool -> str;
  generate : nat -> list token -> Z -> option TextStreamer ->
             list token * list str;
  time_time : nat -> time clock_ops
}.

(** What reaches standard output, by the statement that prints it. *)
Inductive printed (T : Type) :=
| Line (s : str)
| InputLength (n : nat)
| Prompt (s : str)
| Streamed (chunk : str)
| Decoded (output_str : str)
| InferenceTime (elapsed : T).

Arguments Line {T} s.
Arguments InputLength {T} n.
Arguments Prompt {T} s.
Arguments Streamed {T} chunk.
Arguments Decoded {T} output_str.
Arguments InferenceTime {T} elapsed.

(** What the script does to the world around it, one entry per effect
    and in the order of execution: a write to standard output, the
    reading numbered [n] of the clock, the call numbered [n] of
    [generate]. *)
Inductive effect (T : Type) :=
| Wrote (e : printed T)
| ReadClock (n : nat)
| CalledGenerate (n : nat).

Arguments Wrote {T} e.
Arguments ReadClock {T} n.
Arguments CalledGenerate {T} n.

Record world (T : Type) := {
  stdout : list (printed T);
  clock_reads : nat;
  generate_calls : nat;
  effects : list (effect T)
}.

Arguments stdout {T} w.
Arguments clock_reads {T} w.
Arguments generate_calls {T} w.
Arguments effects {T} w.

Definition print {T : Type} (e : printed T) : M (world T) unit :=
  fun w => (tt, {| stdout := stdout w ++ [e];
                   clock_reads := clock_reads w;
                   generate_calls := generate_calls w;
                   effects := effects w ++ [Wrote e] |}).

Definition range (n : nat) : list nat := seq 0 n.

(** ["-" * n] *)
Definition dashes (n : nat) : str := repeat 45%N n.

Section Loop.

Variable E : Collaborators.

Let T := time (clock_ops E).

(** [time.time()] *)
Definition now : M (world T) T :=
  fun w => (time_time E (clock_reads w),
            {| stdout := stdout w;
               clock_reads := S (clock_reads w);
               generate_calls := generate_calls w;
               effects := effects w ++ [ReadClock (clock_reads w)] |}).

(** [model.generate(ids, max_new_tokens=n, streamer=streamer)]: with a
    streamer, the text it receives is written as it comes. *)
Definition model_generate (ids : list (token E)) (n : Z)
  (streamer : option TextStreamer) : M (world T) (list (token E)) :=
  fun w =>
    let result := generate E (generate_calls w) ids n streamer in
    let streamed :=
      match streamer with
      | Some _ => List.map Streamed (snd result)
      | None => []
      end in
    (fst result,
     {| stdout := stdout w ++ streamed;
        clock_reads := clock_reads w;
        generate_calls := S (generate_calls w);
        effects := effects w ++ CalledGenerate (generate_calls w) ::
                   List.map Wrote streamed |}).

Definition iteration (args : Args) (streamer : option TextStreamer)
  (i : nat) : M (world T) unit :=
  let prompt := get_prompt (prompt args) [] DEFAULT_SYSTEM_PROMPT in
  let _input_ids := encode E prompt in
  print (Line (dashes 20 ++ lit " Input " ++ dashes 20)) ;;
  print (InputLength (length _input_ids)) ;;
  print (Prompt prompt) ;;
  print (Line (dashes 20 ++ lit " Output " ++ dashes 20)) ;;
  st <- now ;;
  output <- model_generate _input_ids (n_predict args) streamer ;;
  end_ <- now ;;
  (if disable_streaming args
   then print (Decoded (decode E output false))
   else ret tt) ;;
  print (InferenceTime (tsub (clock_ops E) end_ st)).

(** The script from the choice of the streamer to its last line. *)
Definition generation (args : Args) : M (world T) unit :=
  let streamer :=
    if disable_streaming args then None
    else Some {| skip_special_tokens := true |} in
  print (Line (dashes 80)) ;;
  print (Line (lit "done")) ;;
  print (Line (lit "finish to load")) ;;
  for_each (range 3) (iteration args streamer) ;;
  print (Line (dashes 80)) ;;
  print (Line (lit "done")) ;;
  print (Line (lit "success shut down")).

Definition start : world T :=
  {| stdout := []; clock_reads := 0; generate_calls := 0; effects := [] |}.

Definition run (args : Args) : list (printed T) :=
  stdout (snd (generation args start)).

(** The effects of the same run, writes included. *)
Definition run_effects (args : Args) : list (effect T) :=
  effects (snd (generation args start)).

End Loop.

Definition decoded_outputs {T : Type} (out : list (printed T)) : list str :=
  flat_map (fun e => match e with Decoded s => [s] | _ => [] end) out.

Definition inference_times {T : Type} (out : list (printed T)) : list T :=
  flat_map (fun e => match e with InferenceTime t => [t] | _ => [] end) out.

(** The prompt of every pass, its token ids, and the full output of the
    pass numbered [i]. *)
Definition pass_prompt (args : Args) : str :=
  get_prompt (prompt args) [] DEFAULT_SYSTEM_PROMPT.

Definition pass_output (E : Collaborators) (args : Args) (i : nat)
  : list (token E) :=
  fst (generate E i (encode E (pass_prompt args)) (n_predict args) None).

(** Integer clocks, for running the loop. *)
Definition integer_time : TimeOps :=
  {| time := Z; tzero := 0%Z; tsub := Z.sub; tle := Z.leb |}.

Definition echo (readings : nat -> Z) : Collaborators := {|
  token := N;
  clock_ops := integer_time;
  encode := fun s => s;
  decode := fun ids _ => ids;
  generate := fun _ ids _ _ => (ids ++ lit "42", [lit "42"]);
  time_time := readings
|}.

(** A clock that advances by one at each reading, and one that is set
    back from 10 to 4 after its first reading. *)
Definition ticking (n : nat) : Z := Z.of_nat n.

Definition set_back (n : nat) : Z :=
  match n with O => 10%Z | S _ => 4%Z end.

(** The defaults of the argument parser, with the two options given. *)
Definition default_args (lowbit : str) (streaming_off : bool) : Args := {|
  repo_id_or_model_path := lit "meta-llama/Meta-Llama-3-8B-Instruct";
  lowbit_path := lowbit;
  prompt := lit "What is AI?";
  n_predict := 32;
  max_context_len := 1024;
  max_prompt_len := 512;
  quantization_group_size := 0;
  disable_transpose_value_cache := false;
  disable_streaming := streaming_off
|}.

(** ** Further readings of the prompt and of the output *)

(** A turn as it is rendered. *)
Definition strip_turn (turn : str * str) : str * str :=
  (strip (fst turn), strip (snd turn)).

(** The part of [s] before the first occurrence of [p]. *)
Fixpoint cut (p s : str) : str :=
  match s with
  | [] => []
  | c :: s' => if startswith s p then [] else c :: cut p s'
  end.

Definition streamed_chunks {T : Type} (out : list (printed T)) : list str :=
  flat_map (fun e => match e with Streamed c => [c] | _ => [] end) out.

Definition printed_prompts {T : Type} (out : list (printed T)) : list str :=
  flat_map (fun e => match e with Prompt s => [s] | _ => [] end) out.

Definition input_lengths {T : Type} (out : list (printed T)) : list nat :=
  flat_map (fun e => match e with InputLength n => [n] | _ => [] end) out.

(** [TextStreamer(tokenizer=tokenizer, skip_special_tokens=True)], and
    the text that the pass numbered [i] hands to it. *)
Definition text_streamer : TextStreamer := {| skip_special_tokens := true |}.

Definition pass_chunks (E : Collaborators) (args : Args) (i : nat) : list str :=
  snd (generate E i (encode E (pass_prompt args)) (n_predict args)
         (Some text_streamer)).

(** Saving a low-bit model to [path] makes [path] exist. *)
Definition save_creates (F : FileSystem) (path : str) : Prop :=
  forall d, path_exists F (after F (save_low_bit path) d) path = true.

(** The script started a second time on the disk the first run left. *)
Definition load_model_again (F : FileSystem) (args : Args) (d : disk F)
  : list library_call :=
  fst (load_model F args (snd (load_model F args d))).

(** The command line with another [--quantization_group_size]. *)
Definition with_quantization_group_size (args : Args) (q : Z) : Args := {|
  repo_id_or_model_path := repo_id_or_model_path args;
  lowbit_path := lowbit_path args;
  prompt := prompt args;
  n_predict := n_predict args;
  max_context_len := max_context_len args;
  max_prompt_len := max_prompt_len args;
  quantization_group_size := q;
  disable_transpose_value_cache := disable_transpose_value_cache args;
  disable_streaming := disable_streaming args
|}.

(** What the pass numbered [i] writes, in order. *)
Definition pass_trace (E : Collaborators) (args : Args) (i : nat)
  : list (printed (time (clock_ops E))) :=
  [Line (dashes 20 ++ lit " Input " ++ dashes 20);
   InputLength (length (encode E (pass_prompt args)));
   Prompt (pass_prompt args);
   Line (dashes 20 ++ lit " Output " ++ dashes 20)] ++
  (if disable_streaming args then []
   else List.map Streamed (pass_chunks E args i)) ++
  (if disable_streaming args
   then [Decoded (decode E (pass_output E args i) false)] else []) ++
  [InferenceTime (tsub (clock_ops E) (time_time E (2 * i + 1))
                    (time_time E (2 * i)))].

(** The effects of the pass numbered [i], in order: the clock is read
    just before and just after the call of [generate]. *)
Definition pass_effects (E : Collaborators) (args : Args) (i : nat)
  : list (effect (time (clock_ops E))) :=
  [Wrote (Line (dashes 20 ++ lit " Input " ++ dashes 20));
   Wrote (InputLength (length (encode E (pass_prompt args))));
   Wrote (Prompt (pass_prompt args));
   Wrote (Line (dashes 20 ++ lit " Output " ++ dashes 20));
   ReadClock (2 * i);
   CalledGenerate i] ++
  (if disable_streaming args then []
   else List.map (fun c => Wrote (Streamed c)) (pass_chunks E args i)) ++
  [ReadClock (2 * i + 1)] ++
  (if disable_streaming args
   then [Wrote (Decoded (decode E (pass_output E args i) false))] else []) ++
  [Wrote (InferenceTime (tsub (clock_ops E) (time_time E (2 * i + 1))
                           (time_time E (2 * i))))].

(** A library whose [from_pretrained] leaves the checkpoint it fetched
    in a folder named by the model path. *)
Definition fetching : FileSystem := {|
  disk := list str;
  path_exists := fun d path => existsb (str_eqb path) d;
  after := fun c d =>
    match c with
    | save_low_bit path => path :: d
    | from_pretrained model_path _ _ _ _ => model_path :: d
    | _ => d
    end
|}.

(** ** The two reference prompts *)

Example strip_example :
  strip ([32; 9] ++ lit "a b" ++ [NL; 160])%N = lit "a b".
Proof. reflexivity. Qed.

(** C1: on the user text "What is AI?", no history and the empty system
    prompt, the builder returns the begin-of-text marker, one user block
    holding the text, and the open assistant header. *)
Theorem get_prompt_what_is_ai :
  get_prompt (lit "What is AI?") [] (lit "") =
  lit "<|begin_of_text|><|start_header_id|>user<|end_header_id|>" ++ [NL; NL] ++
  lit "What is AI?<|eot_id|><|start_header_id|>assistant<|end_header_id|>" ++
  [NL; NL].
Proof. vm_compute. reflexivity. Qed.

(** The second scenario of the specification: a system prompt and one
    turn of history. *)
Example get_prompt_be_nice :
  get_prompt (lit "Hi") [(lit "Hello", lit "Hi there")] (lit "Be nice") =
  lit "<|begin_of_text|><|start_header_id|>system<|end_header_id|>" ++
  [NL; NL] ++
  lit "Be nice<|eot_id|><|start_header_id|>user<|end_header_id|>" ++
  [NL; NL] ++
  lit "Hello<|eot_id|><|start_header_id|>assistant<|end_header_id|>" ++
  [NL; NL] ++
  lit "Hi there<|eot_id|><|start_header_id|>user<|end_header_id|>" ++
  [NL; NL] ++
  lit "Hi<|eot_id|><|start_header_id|>assistant<|end_header_id|>" ++
  [NL; NL].
Proof. vm_compute. reflexivity. Qed.

(** ** Whitespace stripping *)

Lemma lstrip_split (s : str) :
  exists l, s = l ++ lstrip s /\ forallb isspace l = true.
Proof.
  induction s as [|c s [l [Hs Hl]]]; simpl.
  - exists []. split; reflexivity.
  - destruct (isspace c) eqn:Hc.
    + exists (c :: l). simpl. rewrite Hc, Hl. split; [f_equal; exact Hs | reflexivity].
    + exists []. split; reflexivity.
Qed.

Lemma lstrip_head (s : str) (c : char) (t : str) :
  lstrip s = c :: t -> isspace c = false.
Proof.
  induction s as [|d s IH]; simpl; [discriminate|].
  destruct (isspace d) eqn:Hd; [exact IH|].
  intros H. injection H as <- _. exact Hd.
Qed.

Lemma lstrip_app_ws (l s : str) :
  forallb isspace l = true -> lstrip (l ++ s) = lstrip s.
Proof.
  induction l as [|c l IH]; simpl; [reflexivity|].
  intros H. apply andb_true_iff in H as [Hc Hl]. rewrite Hc. auto.
Qed.

Lemma lstrip_ws (l : str) : forallb isspace l = true -> lstrip l = [].
Proof.
  intros H. rewrite <- (app_nil_r l). rewrite lstrip_app_ws by exact H. reflexivity.
Qed.

Lemma lstrip_app (s r : str) :
  lstrip (s ++ r) = if nonempty (lstrip s) then lstrip s ++ r else lstrip r.
Proof.
  induction s as [|c s IH]; simpl; [reflexivity|].
  destruct (isspace c); [exact IH | reflexivity].
Qed.

Lemma lstrip_idem (s : str) : lstrip (lstrip s) = lstrip s.
Proof.
  destruct (lstrip s) as [|c t] eqn:E; [reflexivity|].
  simpl. rewrite (lstrip_head _ _ _ E). reflexivity.
Qed.

Lemma rstrip_split (s : str) :
  exists r, s = rstrip s ++ r /\ forallb isspace r = true.
Proof.
  destruct (lstrip_split (rev s)) as [l [Hs Hl]].
  exists (rev l). split.
  - unfold rstrip. rewrite <- rev_app_distr, <- Hs, rev_involutive. reflexivity.
  - rewrite forallb_forall in *. intros x Hx. apply Hl, in_rev. exact Hx.
Qed.

Lemma forallb_rev (f : char -> bool) (l : str) :
  forallb f l = true -> forallb f (rev l) = true.
Proof.
  rewrite !forallb_forall. intros H x Hx. apply H, in_rev. exact Hx.
Qed.

Lemma rstrip_app_ws (s r : str) :
  forallb isspace r = true -> rstrip (s ++ r) = rstrip s.
Proof.
  intros H. unfold rstrip. rewrite rev_app_distr.
  rewrite lstrip_app_ws by (apply forallb_rev; exact H). reflexivity.
Qed.

Lemma rstrip_last (s : str) (d : char) :
  rstrip s <> [] -> isspace (last (rstrip s) d) = false.
Proof.
  unfold rstrip. destruct (lstrip (rev s)) as [|c t] eqn:E; [intros H; elim H; reflexivity|].
  intros _. simpl rev. rewrite last_last. exact (lstrip_head _ _ _ E).
Qed.

Lemma rstrip_nil : rstrip [] = [].
Proof. reflexivity. Qed.

(** Stripping the right end keeps the first character. *)
Lemma rstrip_cons_nonspace (c : char) (t : str) :
  isspace c = false -> exists t', rstrip (c :: t) = c :: t'.
Proof.
  intros Hc. unfold rstrip. simpl rev. rewrite lstrip_app. 
  destruct (lstrip (rev t)) as [|d u] eqn:E; simpl.
  - rewrite Hc. simpl. exists []. reflexivity.
  - rewrite rev_app_distr. simpl. exists (rev (d :: u)). reflexivity.
Qed.

(** What [strip] returns: the text between a whitespace prefix and a
    whitespace suffix, itself free of whitespace at both ends. *)
Lemma strip_spec (s : str) :
  exists l r,
    s = l ++ strip s ++ r /\
    forallb isspace l = true /\ forallb isspace r = true /\
    edge_clean (strip s) = true.
Proof.
  destruct (lstrip_split s) as [l [Hs Hl]].
  destruct (rstrip_split (lstrip s)) as [r [Hm Hr]].
  exists l, r. repeat split; try assumption.
  - unfold strip. rewrite <- Hm. exact Hs.
  - unfold strip, edge_clean.
    destruct (lstrip s) as [|c t] eqn:E; [reflexivity|].
    pose proof (lstrip_head _ _ _ E) as Hc.
    destruct (rstrip_cons_nonspace c t Hc) as [t' Ht'].
    pose proof (rstrip_last (c :: t) c) as Hlast.
    rewrite Ht' in *. rewrite Hc. rewrite Hlast by discriminate. reflexivity.
Qed.

(** Whitespace added around a text does not change what [strip] returns. *)
Lemma strip_pad (l s r : str) :
  forallb isspace l = true -> forallb isspace r = true ->
  strip (l ++ s ++ r) = strip s.
Proof.
  intros Hl Hr. unfold strip. rewrite lstrip_app_ws by exact Hl.
  rewrite lstrip_app. destruct (lstrip s) as [|c t]; simpl nonempty; cbv iota.
  - rewrite lstrip_ws by exact Hr. reflexivity.
  - apply rstrip_app_ws. exact Hr.
Qed.

Lemma strip_edge_clean (m : str) : edge_clean m = true -> strip m = m.
Proof.
  destruct m as [|c t]; [reflexivity|].
  unfold edge_clean. intros H. apply andb_true_iff in H as [Hc Hl].
  apply negb_true_iff in Hc, Hl.
  unfold strip. simpl lstrip. rewrite Hc.
  unfold rstrip.
  destruct (rev (c :: t)) as [|d u] eqn:E.
  - apply (f_equal (@length _)) in E. rewrite length_rev in E. discriminate.
  - assert (Hd : d = last (c :: t) c).
    { rewrite <- (rev_involutive (c :: t)), E. simpl rev. rewrite last_last. reflexivity. }
    simpl lstrip. rewrite Hd, Hl. rewrite <- Hd, <- E. apply rev_involutive.
Qed.

Lemma strip_idem (s : str) : strip (strip s) = strip s.
Proof.
  destruct (strip_spec s) as [_ [_ [_ [_ [_ H]]]]].
  apply strip_edge_clean. exact H.
Qed.

(** ** The shape of the rendered prompt *)

Lemma join_app (xs ys : list str) : join (xs ++ ys) = join xs ++ join ys.
Proof.
  induction xs as [|x xs IH]; simpl; [reflexivity|].
  rewrite IH. apply app_assoc.
Qed.

Lemma history_loop_app (chat_history : list (str * str)) (acc : list str) :
  history_loop acc chat_history =
  acc ++ flat_map (fun turn => [user_text (fst turn); assistant_text (snd turn)])
                  chat_history.
Proof.
  revert acc. induction chat_history as [|[a b] h IH]; intros acc;
    cbn [history_loop flat_map fst snd].
  - symmetry. apply app_nil_r.
  - rewrite IH. unfold append. rewrite <- !app_assoc. reflexivity.
Qed.

Lemma join_pairs (chat_history : list (str * str)) :
  join (flat_map (fun turn => [user_text (fst turn); assistant_text (snd turn)])
                 chat_history) =
  flat_map pair_text chat_history.
Proof.
  induction chat_history as [|[a b] h IH]; [reflexivity|].
  cbn [flat_map join app]. rewrite IH. unfold pair_text.
  rewrite <- app_assoc. reflexivity.
Qed.

(** The prompt read from left to right. *)
Lemma get_prompt_shape (user_input : str) (chat_history : list (str * str))
  (system_prompt : str) :
  get_prompt user_input chat_history system_prompt =
  BEGIN_OF_TEXT ++
  (if nonempty system_prompt then system_text system_prompt else []) ++
  body user_input chat_history.
Proof.
  unfold get_prompt, prompt_texts_of, body, append.
  rewrite join_app, history_loop_app, join_app, join_pairs.
  destruct (nonempty system_prompt); cbn [join app];
    rewrite ?app_nil_r, <- ?app_assoc; reflexivity.
Qed.

(** ** Counting occurrences *)

Lemma startswith_app_l (a b p : str) :
  startswith a p = true -> startswith (a ++ b) p = true.
Proof.
  revert a. induction p as [|x p IH]; intros a; simpl; [reflexivity|].
  destruct a as [|y a]; simpl; [discriminate|].
  intros H. apply andb_true_iff in H as [H1 H2].
  rewrite H1. simpl. apply IH. exact H2.
Qed.

Lemma startswith_app_inv (a b p : str) :
  startswith (a ++ b) p = true ->
  startswith a p = true \/
  (length a < length p /\ startswith b (skipn (length a) p) = true).
Proof.
  revert p. induction a as [|y a IH]; intros p H.
  - destruct p as [|x p]; [left; reflexivity|].
    right. split; [simpl; lia | exact H].
  - destruct p as [|x p]; [left; reflexivity|].
    simpl in H. apply andb_true_iff in H as [H1 H2].
    destruct (IH _ H2) as [Hl | [Hlen Hr]].
    + left. simpl. rewrite H1. exact Hl.
    + right. split; [simpl; lia | exact Hr].
Qed.

Lemma clash_startswith (x e rest : str) :
  clash x e = true -> startswith (e ++ rest) x = false.
Proof.
  revert e. induction x as [|a x IH]; intros e; simpl.
  - destruct e; discriminate.
  - destruct e as [|b e]; [discriminate|]. simpl.
    destruct (N.eqb a b); simpl; [apply IH | reflexivity].
Qed.

Lemma no_straddle_startswith (p e a rest : str) :
  no_straddle p e = true -> a <> [] ->
  startswith (a ++ e ++ rest) p = startswith a p.
Proof.
  intros Hp Ha.
  destruct (startswith a p) eqn:E.
  - apply startswith_app_l. exact E.
  - destruct (startswith (a ++ e ++ rest) p) eqn:F; [|reflexivity].
    destruct (startswith_app_inv _ _ _ F) as [Hl | [Hlen Hr]]; [congruence|].
    unfold no_straddle in Hp. rewrite forallb_forall in Hp.
    assert (Hj : In (length a) (seq 1 (length p - 1))).
    { apply in_seq. destruct a; [elim Ha; reflexivity | simpl in *; lia]. }
    apply Hp in Hj. rewrite (clash_startswith _ _ rest Hj) in Hr. discriminate.
Qed.

(** A pattern that no text can begin and [e] complete occurs in
    [t ++ e ++ rest] only inside [t] or from [e] on. *)
Lemma occurrences_text (p e t rest : str) :
  no_straddle p e = true ->
  occurrences p (t ++ e ++ rest) = occurrences p t + occurrences p (e ++ rest).
Proof.
  intros Hp. induction t as [|c t IH]; [reflexivity|].
  change ((c :: t) ++ e ++ rest) with (c :: (t ++ e ++ rest)).
  cbn [occurrences]. rewrite IH.
  change (c :: (t ++ e ++ rest)) with ((c :: t) ++ e ++ rest).
  rewrite (no_straddle_startswith p e (c :: t) rest Hp) by discriminate.
  lia.
Qed.

Lemma occurrences_prefix_zero (p a b : str) :
  occurrences p (a ++ b) = 0 -> occurrences p a = 0.
Proof.
  induction a as [|c a IH]; [reflexivity|].
  change ((c :: a) ++ b) with (c :: (a ++ b)). cbn [occurrences].
  destruct (startswith (c :: a) p) eqn:E.
  - change (c :: (a ++ b)) with ((c :: a) ++ b).
    rewrite (startswith_app_l _ b _ E). discriminate.
  - destruct (startswith (c :: a ++ b) p); [discriminate|].
    simpl. exact IH.
Qed.

Lemma occurrences_suffix_zero (p a b : str) :
  occurrences p (a ++ b) = 0 -> occurrences p b = 0.
Proof.
  induction a as [|c a IH]; [trivial|].
  change ((c :: a) ++ b) with (c :: (a ++ b)). cbn [occurrences].
  intros H. apply IH. lia.
Qed.

(** A text without the pattern has none left after stripping. *)
Lemma occurrences_strip_zero (p s : str) :
  occurrences p s = 0 -> occurrences p (strip s) = 0.
Proof.
  destruct (strip_spec s) as [l [r [Hs _]]]. intros H.
  rewrite Hs in H. apply occurrences_suffix_zero in H.
  apply occurrences_prefix_zero in H. exact H.
Qed.

(** Counting a pattern in the prompt, from what the template literals
    contribute and what the texts contain. *)
Section Counting.

Variable p : str.
Variables ks ku ka : nat.

Hypothesis text_then_eot : no_straddle p EOT = true.
Hypothesis in_begin : forall rest,
  occurrences p (BEGIN_OF_TEXT ++ rest) = occurrences p rest.
Hypothesis in_eot : forall rest,
  occurrences p (EOT ++ rest) = occurrences p rest.
Hypothesis in_system : forall rest,
  occurrences p (SYSTEM_HEADER ++ rest) = ks + occurrences p rest.
Hypothesis in_user : forall rest,
  occurrences p (USER_HEADER ++ rest) = ku + occurrences p rest.
Hypothesis in_assistant : forall rest,
  occurrences p (ASSISTANT_HEADER ++ rest) = ka + occurrences p rest.

Lemma occurrences_block (t rest : str) :
  occurrences p (t ++ EOT ++ rest) = occurrences p t + occurrences p rest.
Proof. rewrite occurrences_text by exact text_then_eot. rewrite in_eot. reflexivity. Qed.

Lemma occurrences_system_text (system_prompt rest : str) :
  occurrences p (system_text system_prompt ++ rest) =
  ks + occurrences p system_prompt + occurrences p rest.
Proof.
  unfold system_text. rewrite <- !app_assoc.
  rewrite in_system, occurrences_block. lia.
Qed.

Lemma occurrences_pair_text (turn : str * str) (rest : str) :
  occurrences p (pair_text turn ++ rest) =
  ku + ka + occurrences p (strip (fst turn)) +
  occurrences p (strip (snd turn)) + occurrences p rest.
Proof.
  unfold pair_text, user_text, assistant_text. rewrite <- !app_assoc.
  rewrite in_user, occurrences_block, in_assistant, occurrences_block. lia.
Qed.

Lemma occurrences_final_text (user_input : str) :
  occurrences p (final_text user_input) =
  ku + ka + occurrences p (strip user_input).
Proof.
  unfold final_text.
  rewrite in_user, occurrences_block.
  rewrite <- (app_nil_r ASSISTANT_HEADER), in_assistant. simpl. lia.
Qed.

Lemma occurrences_body (user_input : str) (chat_history : list (str * str)) :
  occurrences p (body user_input chat_history) =
  (length chat_history + 1) * (ku + ka) +
  occurrences_in_history p chat_history + occurrences p (strip user_input).
Proof.
  unfold body.
  induction chat_history as [|turn h IH].
  - cbn [flat_map app length occurrences_in_history]. rewrite occurrences_final_text.
    cbn [Nat.add]. rewrite Nat.mul_1_l, Nat.add_0_r. reflexivity.
  - cbn [flat_map length occurrences_in_history]. rewrite <- app_assoc.
    rewrite occurrences_pair_text, IH.
    replace (S (length h) + 1) with (S (length h + 1)) by lia.
    rewrite Nat.mul_succ_l. lia.
Qed.

Lemma occurrences_get_prompt (user_input : str)
  (chat_history : list (str * str)) (system_prompt : str) :
  occurrences p (get_prompt user_input chat_history system_prompt) =
  (if nonempty system_prompt then ks + occurrences p system_prompt else 0) +
  (length chat_history + 1) * (ku + ka) +
  occurrences_in_history p chat_history + occurrences p (strip user_input).
Proof.
  rewrite get_prompt_shape, in_begin.
  destruct (nonempty system_prompt).
  - rewrite occurrences_system_text, occurrences_body. lia.
  - cbn [app]. rewrite occurrences_body. lia.
Qed.

End Counting.

Lemma system_header_literals :
  no_straddle SYSTEM_HEADER EOT = true /\
  (forall rest, occurrences SYSTEM_HEADER (BEGIN_OF_TEXT ++ rest) =
                occurrences SYSTEM_HEADER rest) /\
  (forall rest, occurrences SYSTEM_HEADER (EOT ++ rest) =
                occurrences SYSTEM_HEADER rest) /\
  (forall rest, occurrences SYSTEM_HEADER (SYSTEM_HEADER ++ rest) =
                1 + occurrences SYSTEM_HEADER rest) /\
  (forall rest, occurrences SYSTEM_HEADER (USER_HEADER ++ rest) =
                0 + occurrences SYSTEM_HEADER rest) /\
  (forall rest, occurrences SYSTEM_HEADER (ASSISTANT_HEADER ++ rest) =
                0 + occurrences SYSTEM_HEADER rest).
Proof. repeat split; intros; reflexivity. Qed.

Lemma user_header_literals :
  no_straddle USER_HEADER EOT = true /\
  (forall rest, occurrences USER_HEADER (BEGIN_OF_TEXT ++ rest) =
                occurrences USER_HEADER rest) /\
  (forall rest, occurrences USER_HEADER (EOT ++ rest) =
                occurrences USER_HEADER rest) /\
  (forall rest, occurrences USER_HEADER (SYSTEM_HEADER ++ rest) =
                0 + occurrences USER_HEADER rest) /\
  (forall rest, occurrences USER_HEADER (USER_HEADER ++ rest) =
                1 + occurrences USER_HEADER rest) /\
  (forall rest, occurrences USER_HEADER (ASSISTANT_HEADER ++ rest) =
                0 + occurrences USER_HEADER rest).
Proof. repeat split; intros; reflexivity. Qed.

Lemma assistant_header_literals :
  no_straddle ASSISTANT_HEADER EOT = true /\
  (forall rest, occurrences ASSISTANT_HEADER (BEGIN_OF_TEXT ++ rest) =
                occurrences ASSISTANT_HEADER rest) /\
  (forall rest, occurrences ASSISTANT_HEADER (EOT ++ rest) =
                occurrences ASSISTANT_HEADER rest) /\
  (forall rest, occurrences ASSISTANT_HEADER (SYSTEM_HEADER ++ rest) =
                0 + occurrences ASSISTANT_HEADER rest) /\
  (forall rest, occurrences ASSISTANT_HEADER (USER_HEADER ++ rest) =
                0 + occurrences ASSISTANT_HEADER rest) /\
  (forall rest, occurrences ASSISTANT_HEADER (ASSISTANT_HEADER ++ rest) =
                1 + occurrences ASSISTANT_HEADER rest).
Proof. repeat split; intros; reflexivity. Qed.

(** ** The pieces the builder emits *)

Lemma prompt_texts_shape (user_input : str) (chat_history : list (str * str))
  (system_prompt : str) :
  prompt_texts_of user_input chat_history system_prompt =
  BEGIN_OF_TEXT ::
  (if nonempty system_prompt then [system_text system_prompt] else []) ++
  flat_map (fun turn => [user_text (fst turn); assistant_text (snd turn)])
           chat_history ++
  [final_text user_input].
Proof.
  unfold prompt_texts_of, append. rewrite history_loop_app.
  destruct (nonempty system_prompt); cbn [app]; rewrite <- ?app_assoc; reflexivity.
Qed.

(** A non-empty system prompt is emitted as it is, as the second piece. *)
Lemma system_block_emitted (user_input : str) (chat_history : list (str * str))
  (system_prompt : str) :
  nonempty system_prompt = true ->
  nth_error (prompt_texts_of user_input chat_history system_prompt) 1 =
    Some (block SYSTEM_HEADER system_prompt) /\
  get_prompt user_input chat_history system_prompt =
    BEGIN_OF_TEXT ++ block SYSTEM_HEADER system_prompt ++
    body user_input chat_history.
Proof.
  intros H. rewrite prompt_texts_shape, get_prompt_shape, H. split; reflexivity.
Qed.

Lemma block_inj (header a b : str) : block header a = block header b -> a = b.
Proof.
  unfold block. intros H. apply app_inv_head in H. apply app_inv_tail in H. exact H.
Qed.

Lemma strip_whitespace (s : str) : whitespace s = true -> strip s = [].
Proof. intros H. unfold strip. rewrite (lstrip_ws s H). reflexivity. Qed.

Lemma padded_strip (s core : str) : padded s core -> strip s = strip core.
Proof.
  intros [l [r [Hs [Hl Hr]]]]. subst s. apply strip_pad; assumption.
Qed.

Lemma strip_padded (s : str) : padded s (strip s) /\ edge_clean (strip s) = true.
Proof.
  destruct (strip_spec s) as [l [r [Hs [Hl [Hr Hc]]]]].
  split; [exists l, r; repeat split; assumption | exact Hc].
Qed.

(** The core of a padded text is what [strip] returns. *)
Lemma padded_core_unique (s core : str) :
  padded s core -> edge_clean core = true -> core = strip s.
Proof.
  intros Hp Hc. rewrite (padded_strip _ _ Hp). symmetry. apply strip_edge_clean, Hc.
Qed.

Lemma flat_map_pair_text_padded (h2 h : list (str * str)) :
  Forall2 padded_turn h2 h -> flat_map pair_text h2 = flat_map pair_text h.
Proof.
  induction 1 as [|t2 t h2 h [Ha Hb] _ IH]; [reflexivity|].
  cbn [flat_map]. rewrite IH. unfold pair_text, user_text, assistant_text.
  rewrite (padded_strip _ _ Ha), (padded_strip _ _ Hb). reflexivity.
Qed.

(** ** What is stripped and what is not *)

(** C2 (as stated, refuted): with the system prompt " x " the system
    block holds " x ", while the trimmed text is "x". *)
Lemma system_prompt_kept_untrimmed :
  strip (lit " x ") = lit "x" /\
  get_prompt (lit "Hi") [] (lit " x ") =
    BEGIN_OF_TEXT ++ block SYSTEM_HEADER (lit " x ") ++ body (lit "Hi") [] /\
  startswith (get_prompt (lit "Hi") [] (lit " x "))
    (BEGIN_OF_TEXT ++ block SYSTEM_HEADER (strip (lit " x "))) = false.
Proof. repeat split; vm_compute; reflexivity. Qed.

(** C2 (amended): for every non-empty system prompt the system block is
    the second piece emitted and holds the system prompt exactly as it
    was given, between the system header and the end-of-turn marker; it
    holds the trimmed text exactly when trimming changes nothing. *)
Theorem system_block_verbatim (user_input : str)
  (chat_history : list (str * str)) (system_prompt : str) :
  nonempty system_prompt = true ->
  nth_error (prompt_texts_of user_input chat_history system_prompt) 1 =
    Some (block SYSTEM_HEADER system_prompt) /\
  get_prompt user_input chat_history system_prompt =
    BEGIN_OF_TEXT ++ block SYSTEM_HEADER system_prompt ++
    body user_input chat_history /\
  (block SYSTEM_HEADER system_prompt =
   block SYSTEM_HEADER (strip system_prompt) <->
   strip system_prompt = system_prompt).
Proof.
  intros H.
  destruct (system_block_emitted user_input chat_history system_prompt H) as [Hp Hs].
  repeat split; try assumption.
  - intros E. symmetry. exact (block_inj _ _ _ E).
  - intros E. rewrite E. reflexivity.
Qed.

Lemma system_block_verbatim_witness :
  nonempty (lit " Be nice ") = true /\
  get_prompt (lit "Hi") [(lit "Hello", lit "Hi there")] (lit " Be nice ") =
    BEGIN_OF_TEXT ++ block SYSTEM_HEADER (lit " Be nice ") ++
    body (lit "Hi") [(lit "Hello", lit "Hi there")].
Proof.
  split; [reflexivity|].
  exact (proj1 (proj2 (system_block_verbatim (lit "Hi")
           [(lit "Hello", lit "Hi there")] (lit " Be nice ") eq_refl))).
Defined.

(** C10: a non-empty system prompt made of whitespace only still gets
    its system block, and the block holds that whitespace as it was
    given, not the (empty) trimmed text. *)
Theorem whitespace_system_prompt_kept (user_input : str)
  (chat_history : list (str * str)) (system_prompt : str) :
  nonempty system_prompt = true ->
  whitespace system_prompt = true ->
  nth_error (prompt_texts_of user_input chat_history system_prompt) 1 =
    Some (block SYSTEM_HEADER system_prompt) /\
  get_prompt user_input chat_history system_prompt =
    BEGIN_OF_TEXT ++ block SYSTEM_HEADER system_prompt ++
    body user_input chat_history /\
  strip system_prompt = [] /\
  block SYSTEM_HEADER system_prompt <> block SYSTEM_HEADER (strip system_prompt).
Proof.
  intros H W.
  destruct (system_block_emitted user_input chat_history system_prompt H) as [Hp Hs].
  pose proof (strip_whitespace system_prompt W) as E.
  repeat split; try assumption.
  intros B. apply block_inj in B. rewrite E in B. rewrite B in H. discriminate.
Qed.

Lemma whitespace_system_prompt_kept_witness :
  nonempty (lit " ") = true /\ whitespace (lit " ") = true /\
  get_prompt (lit "What is AI?") [] (lit " ") =
    BEGIN_OF_TEXT ++ block SYSTEM_HEADER (lit " ") ++
    body (lit "What is AI?") [].
Proof.
  split; [reflexivity | split; [reflexivity|]].
  exact (proj1 (proj2 (whitespace_system_prompt_kept (lit "What is AI?") []
           (lit " ") eq_refl eq_refl))).
Defined.

(** C3: every user and history text is placed between its header and the
    end-of-turn marker without its leading and trailing whitespace: the
    prompt is made of the cores of the texts, each core being the text
    less a whitespace prefix and a whitespace suffix and having no
    whitespace at either end; and whitespace added around any of the
    texts leaves the prompt unchanged. *)
Theorem stripping_law (user_input : str) (chat_history : list (str * str))
  (system_prompt : str) :
  (exists user_core history_cores,
     padded user_input user_core /\ edge_clean user_core = true /\
     Forall2 padded_turn chat_history history_cores /\
     Forall clean_turn history_cores /\
     get_prompt user_input chat_history system_prompt =
       BEGIN_OF_TEXT ++
       (if nonempty system_prompt then system_text system_prompt else []) ++
       flat_map (fun turn => block USER_HEADER (fst turn) ++
                             block ASSISTANT_HEADER (snd turn)) history_cores ++
       block USER_HEADER user_core ++ ASSISTANT_HEADER) /\
  (forall user_input' chat_history',
     padded user_input' user_input ->
     Forall2 padded_turn chat_history' chat_history ->
     get_prompt user_input' chat_history' system_prompt =
     get_prompt user_input chat_history system_prompt).
Proof.
  split.
  - exists (strip user_input),
           (List.map (fun turn => (strip (fst turn), strip (snd turn))) chat_history).
    repeat split.
    + apply strip_padded.
    + apply strip_padded.
    + induction chat_history as [|turn h IH]; constructor; [|exact IH].
      split; apply strip_padded.
    + apply Forall_forall. intros turn Hin. apply in_map_iff in Hin.
      destruct Hin as [t [<- _]]. split; apply strip_padded.
    + rewrite get_prompt_shape. do 2 f_equal. unfold body. f_equal.
      * induction chat_history as [|turn h IH]; [reflexivity|].
        cbn [flat_map List.map fst snd]. rewrite IH. reflexivity.
      * unfold final_text, block. rewrite <- !app_assoc. reflexivity.
  - intros u2 h2 Hu Hh. rewrite !get_prompt_shape. do 2 f_equal.
    unfold body. rewrite (flat_map_pair_text_padded _ _ Hh).
    unfold final_text. rewrite (padded_strip _ _ Hu). reflexivity.
Qed.

(** The list object made by a call is the last one of the store. *)
Lemma update_fresh (hp : heap) (l : list str) (f : list str -> list str) :
  update (length hp) f (hp ++ [l]) = hp ++ [f l].
Proof.
  induction hp as [|l0 hp IH]; [reflexivity|].
  cbn [length app update]. rewrite IH. reflexivity.
Qed.

Lemma nth_fresh (hp : heap) (l : list str) : nth (length hp) (hp ++ [l]) [] = l.
Proof.
  rewrite app_nth2 by lia. rewrite Nat.sub_diag. reflexivity.
Qed.

Lemma history_statements (chat_history : list (str * str)) (hp : heap)
  (acc : list str) :
  for_each chat_history (fun turn =>
    list_append (length hp) (user_text (fst turn)) ;;
    list_append (length hp) (assistant_text (snd turn))) (hp ++ [acc]) =
  (tt, hp ++ [history_loop acc chat_history]).
Proof.
  revert acc. induction chat_history as [|[a b] h IH]; intros acc.
  - reflexivity.
  - cbn [for_each history_loop fst snd]. unfold bind at 1.
    unfold bind at 1, list_append at 1 2.
    rewrite !update_fresh. apply IH.
Qed.

(** Run from any store, the statements of [get_prompt] return the value
    of the function [get_prompt] and leave the store as it was, but for
    the one list they made. *)
Lemma get_prompt_statements_run (user_input : str)
  (chat_history : list (str * str)) (system_prompt : str) (hp : heap) :
  get_prompt_statements user_input chat_history system_prompt hp =
  (get_prompt user_input chat_history system_prompt,
   hp ++ [prompt_texts_of user_input chat_history system_prompt]).
Proof.
  unfold get_prompt_statements, get_prompt, prompt_texts_of.
  unfold bind at 1, new_list. unfold bind at 1.
  destruct (nonempty system_prompt).
  - unfold list_append at 1. rewrite update_fresh.
    unfold bind at 1. rewrite history_statements.
    unfold bind at 1, list_append. rewrite update_fresh.
    unfold bind, list_items, ret. rewrite nth_fresh. reflexivity.
  - unfold ret at 1.
    unfold bind at 1. rewrite history_statements.
    unfold bind at 1, list_append. rewrite update_fresh.
    unfold bind, list_items, ret. rewrite nth_fresh. reflexivity.
Qed.

(** C9: the builder is deterministic: run from any two stores of list
    objects with the same three arguments it returns the same string,
    the value of the function [get_prompt]; it changes no object that
    existed before the call, and a second call made after the first
    returns the same string again. *)
Theorem get_prompt_deterministic (user_input : str)
  (chat_history : list (str * str)) (system_prompt : str) :
  (forall hp1 hp2,
     fst (get_prompt_statements user_input chat_history system_prompt hp1) =
     fst (get_prompt_statements user_input chat_history system_prompt hp2)) /\
  (forall hp,
     fst (get_prompt_statements user_input chat_history system_prompt hp) =
     get_prompt user_input chat_history system_prompt) /\
  (forall hp,
     firstn (length hp)
       (snd (get_prompt_statements user_input chat_history system_prompt hp)) =
     hp) /\
  (forall hp,
     let first := get_prompt_statements user_input chat_history system_prompt hp in
     let second :=
       get_prompt_statements user_input chat_history system_prompt (snd first) in
     fst second = fst first).
Proof.
  repeat split; intros; rewrite ?get_prompt_statements_run; cbn [fst snd].
  - reflexivity.
  - reflexivity.
  - rewrite firstn_app, Nat.sub_diag, firstn_all. cbn [firstn]. apply app_nil_r.
  - subst first second. rewrite !get_prompt_statements_run. reflexivity.
Qed.

(** ** The blocks of the prompt *)

Lemma texts_free_history (p : str) (chat_history : list (str * str)) :
  Forall (fun turn => occurrences p (fst turn) = 0 /\
                      occurrences p (snd turn) = 0) chat_history ->
  occurrences_in_history p chat_history = 0.
Proof.
  induction 1 as [|turn h [Ha Hb] _ IH]; [reflexivity|].
  cbn [occurrences_in_history].
  rewrite (occurrences_strip_zero _ _ Ha), (occurrences_strip_zero _ _ Hb), IH.
  reflexivity.
Qed.

Lemma occurrences_system_header (user_input : str)
  (chat_history : list (str * str)) (system_prompt : str) :
  occurrences SYSTEM_HEADER (get_prompt user_input chat_history system_prompt) =
  (if nonempty system_prompt
   then 1 + occurrences SYSTEM_HEADER system_prompt else 0) +
  occurrences_in_history SYSTEM_HEADER chat_history +
  occurrences SYSTEM_HEADER (strip user_input).
Proof.
  destruct system_header_literals as [H0 [H1 [H2 [H3 [H4 H5]]]]].
  rewrite (occurrences_get_prompt SYSTEM_HEADER 1 0 0 H0 H1 H2 H3 H4 H5).
  lia.
Qed.

Lemma occurrences_user_header (user_input : str)
  (chat_history : list (str * str)) (system_prompt : str) :
  occurrences USER_HEADER (get_prompt user_input chat_history system_prompt) =
  (if nonempty system_prompt then occurrences USER_HEADER system_prompt else 0) +
  (length chat_history + 1) +
  occurrences_in_history USER_HEADER chat_history +
  occurrences USER_HEADER (strip user_input).
Proof.
  destruct user_header_literals as [H0 [H1 [H2 [H3 [H4 H5]]]]].
  rewrite (occurrences_get_prompt USER_HEADER 0 1 0 H0 H1 H2 H3 H4 H5).
  destruct (nonempty system_prompt); lia.
Qed.

Lemma occurrences_assistant_header (user_input : str)
  (chat_history : list (str * str)) (system_prompt : str) :
  occurrences ASSISTANT_HEADER
    (get_prompt user_input chat_history system_prompt) =
  (if nonempty system_prompt
   then occurrences ASSISTANT_HEADER system_prompt else 0) +
  (length chat_history + 1) +
  occurrences_in_history ASSISTANT_HEADER chat_history +
  occurrences ASSISTANT_HEADER (strip user_input).
Proof.
  destruct assistant_header_literals as [H0 [H1 [H2 [H3 [H4 H5]]]]].
  rewrite (occurrences_get_prompt ASSISTANT_HEADER 0 0 1 H0 H1 H2 H3 H4 H5).
  destruct (nonempty system_prompt); lia.
Qed.

Lemma body_starts_with_user_header (user_input : str)
  (chat_history : list (str * str)) :
  startswith (body user_input chat_history) USER_HEADER = true.
Proof.
  unfold body. destruct chat_history as [|turn h]; cbn [flat_map app].
  - unfold final_text. apply startswith_app_l. reflexivity.
  - unfold pair_text, user_text. rewrite <- !app_assoc.
    apply startswith_app_l. reflexivity.
Qed.

Lemma system_pieces_history (chat_history : list (str * str)) (tail : list str) :
  system_pieces
    (flat_map (fun turn => [user_text (fst turn); assistant_text (snd turn)])
              chat_history ++ tail) =
  system_pieces tail.
Proof.
  induction chat_history as [|turn h IH]; [reflexivity|].
  cbn [flat_map app]. unfold system_pieces in *. cbn [filter].
  replace (startswith (user_text (fst turn)) SYSTEM_HEADER) with false
    by reflexivity.
  replace (startswith (assistant_text (snd turn)) SYSTEM_HEADER) with false
    by reflexivity.
  exact IH.
Qed.

Lemma system_pieces_emitted (user_input : str)
  (chat_history : list (str * str)) (system_prompt : str) :
  system_pieces (prompt_texts_of user_input chat_history system_prompt) =
  if nonempty system_prompt then [system_text system_prompt] else [].
Proof.
  rewrite prompt_texts_shape.
  assert (Hf : system_pieces [final_text user_input] = []) by reflexivity.
  destruct (nonempty system_prompt); cbn [app].
  - change (system_pieces (BEGIN_OF_TEXT :: system_text system_prompt :: ?l))
      with (system_text system_prompt :: system_pieces l).
    rewrite system_pieces_history, Hf. reflexivity.
  - change (system_pieces (BEGIN_OF_TEXT :: ?l)) with (system_pieces l).
    rewrite system_pieces_history, Hf. reflexivity.
Qed.

Lemma nth_error_pairs (chat_history : list (str * str)) (tail : list str)
  (i : nat) (turn : str * str) :
  nth_error chat_history i = Some turn ->
  nth_error
    (flat_map (fun turn => [user_text (fst turn); assistant_text (snd turn)])
              chat_history ++ tail) (2 * i) = Some (user_text (fst turn)) /\
  nth_error
    (flat_map (fun turn => [user_text (fst turn); assistant_text (snd turn)])
              chat_history ++ tail) (2 * i + 1) =
    Some (assistant_text (snd turn)).
Proof.
  revert i. induction chat_history as [|t h IH]; intros i H.
  - destruct i; discriminate.
  - destruct i as [|i].
    + injection H as ->. split; reflexivity.
    + replace (2 * S i) with (S (S (2 * i))) by lia.
      replace (S (S (2 * i)) + 1) with (S (S (2 * i + 1))) by lia.
      cbn [flat_map app nth_error]. apply IH. exact H.
Qed.

Lemma length_pairs (chat_history : list (str * str)) :
  length (flat_map (fun turn => [user_text (fst turn); assistant_text (snd turn)])
                   chat_history) = 2 * length chat_history.
Proof.
  induction chat_history as [|t h IH]; [reflexivity|].
  cbn [flat_map app length]. rewrite IH. lia.
Qed.

(** C4 (as stated, refuted): a user text that itself holds a system
    block passes through as it is, and the prompt then has two system
    blocks although one system prompt was given. *)
Lemma injected_second_system_block :
  nonempty (lit "a") = true /\
  get_prompt (block SYSTEM_HEADER (lit "b")) [] (lit "a") =
    BEGIN_OF_TEXT ++ block SYSTEM_HEADER (lit "a") ++
    USER_HEADER ++ block SYSTEM_HEADER (lit "b") ++ EOT ++ ASSISTANT_HEADER /\
  occurrences SYSTEM_HEADER
    (get_prompt (block SYSTEM_HEADER (lit "b")) [] (lit "a")) = 2.
Proof. repeat split; vm_compute; reflexivity. Qed.

(** C4 (amended): for every non-empty system prompt the builder emits
    exactly one system block; the prompt is the begin-of-text marker,
    then at once that block, then the history and user blocks, the first
    of which opens with the user header; the system headers of the
    prompt are that of the block and those inside the texts, so there
    is exactly one when no text contains a system header. *)
Theorem one_system_block (user_input : str) (chat_history : list (str * str))
  (system_prompt : str) :
  nonempty system_prompt = true ->
  system_pieces (prompt_texts_of user_input chat_history system_prompt) =
    [block SYSTEM_HEADER system_prompt] /\
  get_prompt user_input chat_history system_prompt =
    BEGIN_OF_TEXT ++ block SYSTEM_HEADER system_prompt ++
    body user_input chat_history /\
  startswith (body user_input chat_history) USER_HEADER = true /\
  occurrences SYSTEM_HEADER
    (get_prompt user_input chat_history system_prompt) =
    1 + occurrences SYSTEM_HEADER system_prompt +
    occurrences_in_history SYSTEM_HEADER chat_history +
    occurrences SYSTEM_HEADER (strip user_input) /\
  (texts_free SYSTEM_HEADER user_input chat_history system_prompt ->
   occurrences SYSTEM_HEADER
     (get_prompt user_input chat_history system_prompt) = 1).
Proof.
  intros H.
  pose proof (occurrences_system_header user_input chat_history system_prompt) as Hocc.
  rewrite H in Hocc.
  split; [rewrite system_pieces_emitted, H; reflexivity|].
  split; [apply system_block_emitted; exact H|].
  split; [apply body_starts_with_user_header|].
  split; [exact Hocc|].
  intros [Hu [Hs Hh]]. rewrite Hocc, Hs, (texts_free_history _ _ Hh).
  rewrite (occurrences_strip_zero _ _ Hu). reflexivity.
Qed.

Lemma one_system_block_witness :
  nonempty (lit "Be nice") = true /\
  texts_free SYSTEM_HEADER (lit "Hi") [(lit "Hello", lit "Hi there")]
    (lit "Be nice") /\
  occurrences SYSTEM_HEADER
    (get_prompt (lit "Hi") [(lit "Hello", lit "Hi there")] (lit "Be nice")) = 1.
Proof.
  assert (F : texts_free SYSTEM_HEADER (lit "Hi")
                [(lit "Hello", lit "Hi there")] (lit "Be nice")).
  { split; [reflexivity | split; [reflexivity|]].
    constructor; [split; reflexivity | constructor]. }
  split; [reflexivity | split; [exact F|]].
  exact (proj2 (proj2 (proj2 (proj2
           (one_system_block (lit "Hi") [(lit "Hello", lit "Hi there")]
              (lit "Be nice") eq_refl)))) F).
Defined.

(** C5 (as stated, refuted): a system prompt that holds an end-of-turn
    marker and a user/assistant pair yields, with an empty history, the
    very prompt of a one-turn history: one pair stands between the
    system block and the final user block although the history has
    length 0. *)
Lemma injected_history_pair :
  get_prompt (lit "Hi") []
    (lit "s" ++ EOT ++ USER_HEADER ++ lit "a" ++ EOT ++
     ASSISTANT_HEADER ++ lit "b") =
  get_prompt (lit "Hi") [(lit "a", lit "b")] (lit "s") /\
  occurrences USER_HEADER
    (get_prompt (lit "Hi") []
       (lit "s" ++ EOT ++ USER_HEADER ++ lit "a" ++ EOT ++
        ASSISTANT_HEADER ++ lit "b")) = 2 /\
  occurrences ASSISTANT_HEADER
    (get_prompt (lit "Hi") []
       (lit "s" ++ EOT ++ USER_HEADER ++ lit "a" ++ EOT ++
        ASSISTANT_HEADER ++ lit "b")) = 2.
Proof. repeat split; vm_compute; reflexivity. Qed.

(** C5 (amended): for a history of length k the builder emits exactly k
    user/assistant pairs of blocks, in history order, after the
    begin-of-text marker and the optional system block and before the
    final user block; the user headers of the prompt, and likewise its
    assistant headers, are those k, the one of the final block and those
    inside the texts, so there are exactly k + 1 of each when no text
    contains one. *)
Theorem history_pairs (user_input : str) (chat_history : list (str * str))
  (system_prompt : str) :
  let first := if nonempty system_prompt then 2 else 1 in
  let pieces := prompt_texts_of user_input chat_history system_prompt in
  let out := get_prompt user_input chat_history system_prompt in
  length pieces = first + 2 * length chat_history + 1 /\
  (forall i turn, nth_error chat_history i = Some turn ->
     nth_error pieces (first + 2 * i) = Some (user_text (fst turn)) /\
     nth_error pieces (first + 2 * i + 1) = Some (assistant_text (snd turn))) /\
  nth_error pieces (first + 2 * length chat_history) =
    Some (final_text user_input) /\
  out = BEGIN_OF_TEXT ++
        (if nonempty system_prompt then system_text system_prompt else []) ++
        flat_map pair_text chat_history ++ final_text user_input /\
  occurrences USER_HEADER out =
    (if nonempty system_prompt
     then occurrences USER_HEADER system_prompt else 0) +
    (length chat_history + 1) +
    occurrences_in_history USER_HEADER chat_history +
    occurrences USER_HEADER (strip user_input) /\
  occurrences ASSISTANT_HEADER out =
    (if nonempty system_prompt
     then occurrences ASSISTANT_HEADER system_prompt else 0) +
    (length chat_history + 1) +
    occurrences_in_history ASSISTANT_HEADER chat_history +
    occurrences ASSISTANT_HEADER (strip user_input) /\
  (texts_free USER_HEADER user_input chat_history system_prompt ->
   texts_free ASSISTANT_HEADER user_input chat_history system_prompt ->
   occurrences USER_HEADER out = length chat_history + 1 /\
   occurrences ASSISTANT_HEADER out = length chat_history + 1).
Proof.
  intros first pieces out.
  pose proof (occurrences_user_header user_input chat_history system_prompt) as Hu.
  pose proof (occurrences_assistant_header user_input chat_history system_prompt) as Ha.
  assert (Hp : pieces =
    (if nonempty system_prompt
     then [BEGIN_OF_TEXT; system_text system_prompt] else [BEGIN_OF_TEXT]) ++
    flat_map (fun turn => [user_text (fst turn); assistant_text (snd turn)])
             chat_history ++ [final_text user_input]).
  { unfold pieces. rewrite prompt_texts_shape.
    destruct (nonempty system_prompt); reflexivity. }
  assert (Hfirst : length (if nonempty system_prompt
     then [BEGIN_OF_TEXT; system_text system_prompt] else [BEGIN_OF_TEXT]) = first).
  { unfold first. destruct (nonempty system_prompt); reflexivity. }
  repeat split.
  - rewrite Hp, !length_app, length_pairs, Hfirst. simpl. lia.
  - rewrite Hp, nth_error_app2 by lia. rewrite Hfirst.
    replace (first + 2 * i - first) with (2 * i) by lia.
    apply nth_error_pairs. assumption.
  - rewrite Hp, nth_error_app2 by lia. rewrite Hfirst.
    replace (first + 2 * i + 1 - first) with (2 * i + 1) by lia.
    apply nth_error_pairs. assumption.
  - rewrite Hp, nth_error_app2 by lia. rewrite Hfirst.
    replace (first + 2 * length chat_history - first)
      with (2 * length chat_history) by lia.
    rewrite nth_error_app2 by (rewrite length_pairs; lia).
    rewrite length_pairs, Nat.sub_diag. reflexivity.
  - unfold out. rewrite get_prompt_shape. reflexivity.
  - exact Hu.
  - exact Ha.
  - destruct H as [Hx [Hs Hh]]. fold out in Hu. rewrite Hu, Hs, (texts_free_history _ _ Hh).
    rewrite (occurrences_strip_zero _ _ Hx). destruct (nonempty system_prompt); lia.
  - destruct H0 as [Hx [Hs Hh]]. fold out in Ha. rewrite Ha, Hs, (texts_free_history _ _ Hh).
    rewrite (occurrences_strip_zero _ _ Hx). destruct (nonempty system_prompt); lia.
Qed.

(** C6 (as stated, refuted): with no system prompt and no history, a
    user text that itself holds a system block yields a prompt that
    contains that system block. *)
Lemma injected_system_block_without_system_prompt :
  get_prompt (block SYSTEM_HEADER (lit "X")) [] [] =
    BEGIN_OF_TEXT ++ USER_HEADER ++ block SYSTEM_HEADER (lit "X") ++
    EOT ++ ASSISTANT_HEADER /\
  occurrences SYSTEM_HEADER
    (get_prompt (block SYSTEM_HEADER (lit "X")) [] []) = 1.
Proof. repeat split; vm_compute; reflexivity. Qed.

(** C6 (amended): with the empty system prompt and the empty history the
    builder emits the begin-of-text marker and the final user block and
    nothing else, so the prompt begins with the begin-of-text marker and
    no system block is emitted; the system headers of the prompt are
    exactly those of the stripped user text, so there is none when the
    user text contains none. *)
Theorem no_system_block_without_system_prompt (user_input : str) :
  prompt_texts_of user_input [] [] = [BEGIN_OF_TEXT; final_text user_input] /\
  system_pieces (prompt_texts_of user_input [] []) = [] /\
  get_prompt user_input [] [] = BEGIN_OF_TEXT ++ final_text user_input /\
  startswith (get_prompt user_input [] []) BEGIN_OF_TEXT = true /\
  occurrences SYSTEM_HEADER (get_prompt user_input [] []) =
    occurrences SYSTEM_HEADER (strip user_input) /\
  (occurrences SYSTEM_HEADER user_input = 0 ->
   occurrences SYSTEM_HEADER (get_prompt user_input [] []) = 0).
Proof.
  pose proof (occurrences_system_header user_input [] []) as Hocc.
  cbn [nonempty occurrences_in_history Nat.add] in Hocc.
  split; [reflexivity|].
  split; [apply (system_pieces_emitted user_input [] [])|].
  split; [rewrite get_prompt_shape; unfold body; reflexivity|].
  split; [rewrite get_prompt_shape; apply startswith_app_l; reflexivity|].
  split; [exact Hocc|].
  intros H. rewrite Hocc. apply occurrences_strip_zero. exact H.
Qed.

(** ** Loading: the low-bit checkpoint *)

Lemma path_list_loads_keep (path : str) : loads_keep path_list path.
Proof. intros c d H. destruct c; try reflexivity. discriminate H. Qed.

(** C8 (as stated, refuted): the existence of the low-bit path is
    tested again after the model and the tokenizer are loaded.  With a
    library whose [from_pretrained] leaves a folder named by the model
    path, and that same path given as low-bit path, the path is given
    and absent at the start, yet nothing is saved. *)
Lemma fetched_folder_not_saved :
  nonempty (lowbit_path
    (default_args (lit "meta-llama/Meta-Llama-3-8B-Instruct") false)) = true /\
  path_exists fetching []
    (lit "meta-llama/Meta-Llama-3-8B-Instruct") = false /\
  fst (load_model fetching
         (default_args (lit "meta-llama/Meta-Llama-3-8B-Instruct") false) []) =
    [from_pretrained (lit "meta-llama/Meta-Llama-3-8B-Instruct") 1024 512 0 true;
     tokenizer_from_pretrained (lit "meta-llama/Meta-Llama-3-8B-Instruct")].
Proof. repeat split; vm_compute; reflexivity. Qed.

(** C8 (amended): as long as loading a model or a tokenizer does not
    itself create or remove the low-bit folder: when a low-bit path is
    given and
    exists, the model is loaded from it with [load_low_bit] and nothing
    is saved; when it is given and does not exist, the model is loaded
    from the model path with [from_pretrained] and then saved to the
    low-bit path with [save_low_bit]; when none is given, the model is
    loaded with [from_pretrained] and nothing is saved. *)
Theorem lowbit_load_or_save (F : FileSystem) (args : Args) (d : disk F) :
  loads_keep F (lowbit_path args) ->
  let calls := fst (load_model F args d) in
  let pretrained :=
    from_pretrained (repo_id_or_model_path args) (max_context_len args)
      (max_prompt_len args) (quantization_group_size args)
      (negb (disable_transpose_value_cache args)) in
  let lowbit :=
    load_low_bit (lowbit_path args) (max_context_len args)
      (max_prompt_len args) (negb (disable_transpose_value_cache args)) in
  let tokenizer := tokenizer_from_pretrained (repo_id_or_model_path args) in
  (nonempty (lowbit_path args) = true ->
   path_exists F d (lowbit_path args) = true ->
   calls = [lowbit; tokenizer]) /\
  (nonempty (lowbit_path args) = true ->
   path_exists F d (lowbit_path args) = false ->
   calls = [pretrained; tokenizer; save_low_bit (lowbit_path args)]) /\
  (nonempty (lowbit_path args) = false ->
   calls = [pretrained; tokenizer]).
Proof.
  intros K calls pretrained lowbit tokenizer.
  unfold calls, load_model.
  fold pretrained lowbit tokenizer.
  repeat split.
  - intros Hn He. rewrite Hn, He. cbn [negb orb andb].
    rewrite !K by reflexivity. rewrite He. reflexivity.
  - intros Hn He. rewrite Hn, He. cbn [negb orb andb].
    rewrite !K by reflexivity. rewrite He. reflexivity.
  - intros Hn. rewrite Hn. reflexivity.
Qed.

Lemma lowbit_load_or_save_witness :
  loads_keep path_list (lit "llama3-lowbit") /\
  fst (load_model path_list (default_args (lit "llama3-lowbit") false) []) =
    [from_pretrained (lit "meta-llama/Meta-Llama-3-8B-Instruct") 1024 512 0 true;
     tokenizer_from_pretrained (lit "meta-llama/Meta-Llama-3-8B-Instruct");
     save_low_bit (lit "llama3-lowbit")] /\
  fst (load_model path_list (default_args (lit "llama3-lowbit") false)
         [lit "llama3-lowbit"]) =
    [load_low_bit (lit "llama3-lowbit") 1024 512 true;
     tokenizer_from_pretrained (lit "meta-llama/Meta-Llama-3-8B-Instruct")].
Proof.
  split; [apply path_list_loads_keep|]. split.
  - exact (proj1 (proj2 (lowbit_load_or_save path_list
             (default_args (lit "llama3-lowbit") false) []
             (path_list_loads_keep (lit "llama3-lowbit")))) eq_refl eq_refl).
  - exact (proj1 (lowbit_load_or_save path_list
             (default_args (lit "llama3-lowbit") false) [lit "llama3-lowbit"]
             (path_list_loads_keep (lit "llama3-lowbit"))) eq_refl eq_refl).
Defined.

(** ** The generation loop *)

(** C7 (as stated, refuted): when the clock is set back during the first
    generation, from 10 to 4, the first elapsed value is -6. *)
Lemma clock_set_back_negative_elapsed :
  disable_streaming (default_args (lit "") true) = true /\
  inference_times (run (echo set_back) (default_args (lit "") true)) =
    [(-6)%Z; 0%Z; 0%Z] /\
  tle integer_time (tzero integer_time) (-6)%Z = false.
Proof. repeat split; vm_compute; reflexivity. Qed.

(** C7 (amended): with streaming disabled, the three passes print
    exactly three decoded strings, the one of pass i being the full
    output of the i-th generation decoded with the special tokens kept,
    and exactly three elapsed values, the one of pass i being the clock
    reading taken just after the i-th call of [generate] minus the
    reading taken just before it: in each pass the clock is read, then
    [generate] is called, then the clock is read again, with nothing in
    between, and the decoded string and the elapsed value are written
    after that.  Each elapsed value is at least zero provided the clock
    did not go back between the two readings of its pass and the
    difference of a later and an earlier reading is not negative. *)
Theorem three_passes (E : Collaborators) (args : Args) :
  disable_streaming args = true ->
  let out := run E args in
  let elapsed (i : nat) :=
    tsub (clock_ops E) (time_time E (2 * i + 1)) (time_time E (2 * i)) in
  let pass (i : nat) :=
    [Wrote (Line (dashes 20 ++ lit " Input " ++ dashes 20));
     Wrote (InputLength (length (encode E (pass_prompt args))));
     Wrote (Prompt (pass_prompt args));
     Wrote (Line (dashes 20 ++ lit " Output " ++ dashes 20));
     ReadClock (2 * i);
     CalledGenerate i;
     ReadClock (2 * i + 1);
     Wrote (Decoded (decode E (pass_output E args i) false));
     Wrote (InferenceTime (elapsed i))] in
  decoded_outputs out =
    List.map (fun i => decode E (pass_output E args i) false) (range 3) /\
  length (decoded_outputs out) = 3 /\
  inference_times out = List.map elapsed (range 3) /\
  length (inference_times out) = 3 /\
  (sign_correct (clock_ops E) ->
   (forall i, i < 3 ->
      tle (clock_ops E) (time_time E (2 * i)) (time_time E (2 * i + 1)) = true) ->
   Forall (fun t => tle (clock_ops E) (tzero (clock_ops E)) t = true)
          (inference_times out)) /\
  run_effects E args =
    [Wrote (Line (dashes 80)); Wrote (Line (lit "done"));
     Wrote (Line (lit "finish to load"))] ++
    pass 0 ++ pass 1 ++ pass 2 ++
    [Wrote (Line (dashes 80)); Wrote (Line (lit "done"));
     Wrote (Line (lit "success shut down"))].
Proof.
  intros H out elapsed pass.
  assert (Hd : decoded_outputs out =
    List.map (fun i => decode E (pass_output E args i) false) (range 3)).
  { unfold out, run, generation, iteration. rewrite H. reflexivity. }
  assert (Ht : inference_times out = List.map elapsed (range 3)).
  { unfold out, run, generation, iteration. rewrite H. reflexivity. }
  split; [exact Hd|]. split; [rewrite Hd; reflexivity|].
  split; [exact Ht|]. split; [rewrite Ht; reflexivity|].
  split.
  - intros Hs Hc. rewrite Ht. apply Forall_forall. intros t Hin.
    apply in_map_iff in Hin. destruct Hin as [i [<- Hi]].
    apply Hs, Hc. apply in_seq in Hi. lia.
  - unfold run_effects, generation, iteration, pass, elapsed, pass_output,
      pass_prompt.
    rewrite H. reflexivity.
Qed.

Lemma three_passes_witness :
  disable_streaming (default_args (lit "") true) = true /\
  length (decoded_outputs (run (echo ticking) (default_args (lit "") true))) = 3 /\
  inference_times (run (echo ticking) (default_args (lit "") true)) =
    [1%Z; 1%Z; 1%Z] /\
  Forall (fun t => (0 <=? t)%Z = true)
    (inference_times (run (echo ticking) (default_args (lit "") true))) /\
  List.filter (fun e => match e with Wrote _ => false | _ => true end)
    (run_effects (echo ticking) (default_args (lit "") true)) =
    [ReadClock 0; CalledGenerate 0; ReadClock 1;
     ReadClock 2; CalledGenerate 1; ReadClock 3;
     ReadClock 4; CalledGenerate 2; ReadClock 5].
Proof.
  split; [reflexivity|]. split; [|split; [|split]].
  - exact (proj1 (proj2 (three_passes (echo ticking)
             (default_args (lit "") true) eq_refl))).
  - exact (proj1 (proj2 (proj2 (three_passes (echo ticking)
             (default_args (lit "") true) eq_refl)))).
  - apply (proj1 (proj2 (proj2 (proj2 (proj2 (three_passes (echo ticking)
             (default_args (lit "") true) eq_refl)))))).
    + intros a b H. apply Z.leb_le in H. apply Z.leb_le. simpl. lia.
    + intros i Hi. apply Z.leb_le. unfold echo, ticking. simpl time_time. lia.
  - rewrite (proj2 (proj2 (proj2 (proj2 (proj2 (three_passes (echo ticking)
             (default_args (lit "") true) eq_refl)))))).
    reflexivity.
Defined.

(** ** More on the prompt *)

(** X1: whatever the arguments, the prompt begins with the begin-of-text
    marker and ends with the user block of the stripped user input
    followed by the open assistant header. *)
Theorem prompt_frame (user_input : str) (chat_history : list (str * str))
  (system_prompt : str) :
  startswith (get_prompt user_input chat_history system_prompt)
    BEGIN_OF_TEXT = true /\
  exists middle,
    get_prompt user_input chat_history system_prompt =
    BEGIN_OF_TEXT ++ middle ++
    USER_HEADER ++ strip user_input ++ EOT ++ ASSISTANT_HEADER.
Proof.
  rewrite get_prompt_shape. split.
  - apply startswith_app_l. reflexivity.
  - exists ((if nonempty system_prompt then system_text system_prompt else []) ++
            flat_map pair_text chat_history).
    unfold body, final_text. rewrite <- !app_assoc. reflexivity.
Qed.

(** X2: the prompt of the next turn extends the prompt of this turn: once
    the response is recorded in the history, the new prompt is the old
    one, then the stripped response and its end-of-turn marker, then
    the new final user block. *)
Theorem next_turn_extends (user_input response next_input : str)
  (chat_history : list (str * str)) (system_prompt : str) :
  get_prompt next_input (chat_history ++ [(user_input, response)])
    system_prompt =
  get_prompt user_input chat_history system_prompt ++
  strip response ++ EOT ++
  USER_HEADER ++ strip next_input ++ EOT ++ ASSISTANT_HEADER.
Proof.
  rewrite !get_prompt_shape. unfold body.
  rewrite flat_map_app. cbn [flat_map]. rewrite app_nil_r.
  unfold pair_text, user_text, assistant_text, final_text. cbn [fst snd].
  rewrite <- !app_assoc. reflexivity.
Qed.

(** X3: a user input that is empty or made of whitespace only is not
    skipped: it gives the same prompt as the empty input, with an empty
    final user block. *)
Theorem blank_user_input (user_input : str) (chat_history : list (str * str))
  (system_prompt : str) :
  whitespace user_input = true ->
  get_prompt user_input chat_history system_prompt =
    get_prompt [] chat_history system_prompt /\
  exists before,
    get_prompt user_input chat_history system_prompt =
    before ++ USER_HEADER ++ EOT ++ ASSISTANT_HEADER.
Proof.
  intros W. rewrite !get_prompt_shape. unfold body, final_text.
  rewrite (strip_whitespace _ W). split; [reflexivity|].
  exists (BEGIN_OF_TEXT ++
          (if nonempty system_prompt then system_text system_prompt else []) ++
          flat_map pair_text chat_history).
  rewrite <- !app_assoc. reflexivity.
Qed.

Lemma blank_user_input_witness :
  whitespace ([32; 9; NL])%N = true /\
  get_prompt ([32; 9; NL])%N [(lit "Hello", lit "Hi there")] (lit "Be nice") =
  get_prompt [] [(lit "Hello", lit "Hi there")] (lit "Be nice").
Proof.
  split; [reflexivity|].
  exact (proj1 (blank_user_input ([32; 9; NL])%N
           [(lit "Hello", lit "Hi there")] (lit "Be nice") eq_refl)).
Defined.

(** Reading a text back up to the marker that closes it. *)
Lemma cut_text (p t r : str) :
  no_straddle p p = true -> p <> [] -> occurrences p t = 0 ->
  cut p (t ++ p ++ r) = t.
Proof.
  intros Hp Hne. induction t as [|c t IH]; intros Hfree.
  - cbn [app]. destruct p as [|x p]; [elim Hne; reflexivity|].
    cbn [app cut].
    change (x :: p ++ r) with ((x :: p) ++ r).
    rewrite (startswith_app_l (x :: p) r (x :: p)); [reflexivity|].
    clear. induction (x :: p) as [|y q IH]; [reflexivity|].
    cbn [startswith]. rewrite N.eqb_refl. exact IH.
  - change ((c :: t) ++ p ++ r) with (c :: (t ++ p ++ r)). cbn [cut].
    change (c :: (t ++ p ++ r)) with ((c :: t) ++ p ++ r).
    rewrite (no_straddle_startswith p p (c :: t) r Hp) by discriminate.
    cbn [occurrences] in Hfree.
    destruct (startswith (c :: t) p); [discriminate|].
    rewrite IH by exact Hfree. reflexivity.
Qed.

Lemma split_at_marker (p a a' r r' : str) :
  no_straddle p p = true -> p <> [] ->
  occurrences p a = 0 -> occurrences p a' = 0 ->
  a ++ p ++ r = a' ++ p ++ r' -> a = a' /\ r = r'.
Proof.
  intros Hp Hne Ha Ha' E.
  assert (Haa : a = a').
  { rewrite <- (cut_text p a r Hp Hne Ha), <- (cut_text p a' r' Hp Hne Ha'), E.
    reflexivity. }
  subst a'. split; [reflexivity|].
  apply app_inv_head in E. apply app_inv_head in E. exact E.
Qed.

Lemma eot_marker : no_straddle EOT EOT = true /\ EOT <> [].
Proof. split; [reflexivity | discriminate]. Qed.

Lemma split_at_eot (a a' r r' : str) :
  occurrences EOT a = 0 -> occurrences EOT a' = 0 ->
  a ++ EOT ++ r = a' ++ EOT ++ r' -> a = a' /\ r = r'.
Proof.
  destruct eot_marker as [H1 H2]. apply split_at_marker; assumption.
Qed.

Lemma body_nil (user_input : str) :
  body user_input [] =
  USER_HEADER ++ strip user_input ++ EOT ++ ASSISTANT_HEADER.
Proof. reflexivity. Qed.

Lemma body_cons (user_input : str) (turn : str * str)
  (chat_history : list (str * str)) :
  body user_input (turn :: chat_history) =
  USER_HEADER ++ strip (fst turn) ++ EOT ++
  ASSISTANT_HEADER ++ strip (snd turn) ++ EOT ++ body user_input chat_history.
Proof.
  unfold body. cbn [flat_map]. unfold pair_text, user_text, assistant_text.
  rewrite <- !app_assoc. reflexivity.
Qed.

Lemma header_not_extended (header x rest : str) :
  header = header ++ x ++ EOT ++ rest -> False.
Proof.
  intros E. apply (f_equal (@length char)) in E.
  rewrite !length_app in E. change (length EOT) with 10 in E. lia.
Qed.

Lemma body_injective (chat_history chat_history' : list (str * str))
  (user_input user_input' : str) :
  Forall (fun turn => occurrences EOT (fst turn) = 0 /\
                      occurrences EOT (snd turn) = 0) chat_history ->
  Forall (fun turn => occurrences EOT (fst turn) = 0 /\
                      occurrences EOT (snd turn) = 0) chat_history' ->
  occurrences EOT user_input = 0 -> occurrences EOT user_input' = 0 ->
  body user_input chat_history = body user_input' chat_history' ->
  strip user_input = strip user_input' /\
  List.map strip_turn chat_history = List.map strip_turn chat_history'.
Proof.
  intros Hh Hh' Hu Hu'. revert chat_history' Hh'.
  apply occurrences_strip_zero in Hu, Hu'.
  induction Hh as [|turn h [Ha Hb] _ IH]; intros h' Hh' E;
    destruct Hh' as [|turn' h' [Ha' Hb'] Hh'];
    rewrite ?body_nil, ?body_cons in E; apply app_inv_head in E.
  - apply split_at_eot in E; try assumption. split; [apply E | reflexivity].
  - exfalso. apply occurrences_strip_zero in Ha'.
    apply split_at_eot in E; try assumption. destruct E as [_ E].
    exact (header_not_extended _ _ _ E).
  - exfalso. apply occurrences_strip_zero in Ha.
    apply split_at_eot in E; try assumption. destruct E as [_ E].
    symmetry in E. exact (header_not_extended _ _ _ E).
  - apply occurrences_strip_zero in Ha, Ha', Hb, Hb'.
    apply split_at_eot in E; try assumption. destruct E as [Ea E].
    apply app_inv_head in E.
    apply split_at_eot in E; try assumption. destruct E as [Eb E].
    destruct (IH h' Hh' E) as [Eu Eh]. split; [exact Eu|].
    cbn [List.map]. unfold strip_turn at 1 3. rewrite Ea, Eb, Eh. reflexivity.
Qed.

(** X4: the template is unambiguous on texts without the end-of-turn
    marker: two conversations none of whose texts contains that marker
    give the same prompt only if they have the same system prompt, the
    same number of turns and, once stripped, the same texts. *)
Theorem prompt_injective (user_input user_input' : str)
  (chat_history chat_history' : list (str * str))
  (system_prompt system_prompt' : str) :
  texts_free EOT user_input chat_history system_prompt ->
  texts_free EOT user_input' chat_history' system_prompt' ->
  get_prompt user_input chat_history system_prompt =
  get_prompt user_input' chat_history' system_prompt' ->
  system_prompt = system_prompt' /\
  strip user_input = strip user_input' /\
  List.map strip_turn chat_history = List.map strip_turn chat_history'.
Proof.
  intros [Hu [Hs Hh]] [Hu' [Hs' Hh']] E.
  rewrite !get_prompt_shape in E. apply app_inv_head in E.
  pose proof (body_starts_with_user_header user_input chat_history) as B.
  pose proof (body_starts_with_user_header user_input' chat_history') as B'.
  destruct system_prompt as [|c sp]; destruct system_prompt' as [|c' sp'];
    cbn [nonempty] in E.
  - cbn [app] in E. split; [reflexivity|].
    apply body_injective; assumption.
  - exfalso. cbn [app] in E. rewrite E in B. unfold system_text in B.
    rewrite <- app_assoc in B. discriminate B.
  - exfalso. cbn [app] in E. rewrite <- E in B'. unfold system_text in B'.
    rewrite <- app_assoc in B'. discriminate B'.
  - unfold system_text in E. rewrite <- !app_assoc in E.
    apply app_inv_head in E. apply split_at_eot in E; try assumption.
    destruct E as [Es E]. split; [exact Es|].
    apply body_injective; assumption.
Qed.

Lemma prompt_injective_witness :
  texts_free EOT (lit " Hi ") [(lit "Hello ", lit "Hi there")] (lit "Be nice") /\
  texts_free EOT (lit "Hi") [(lit "Hello", lit " Hi there")] (lit "Be nice") /\
  get_prompt (lit " Hi ") [(lit "Hello ", lit "Hi there")] (lit "Be nice") =
  get_prompt (lit "Hi") [(lit "Hello", lit " Hi there")] (lit "Be nice") /\
  List.map strip_turn [(lit "Hello ", lit "Hi there")] =
  List.map strip_turn [(lit "Hello", lit " Hi there")].
Proof.
  assert (F1 : texts_free EOT (lit " Hi ") [(lit "Hello ", lit "Hi there")]
                 (lit "Be nice")).
  { split; [reflexivity | split; [reflexivity|]].
    constructor; [split; reflexivity | constructor]. }
  assert (F2 : texts_free EOT (lit "Hi") [(lit "Hello", lit " Hi there")]
                 (lit "Be nice")).
  { split; [reflexivity | split; [reflexivity|]].
    constructor; [split; reflexivity | constructor]. }
  split; [exact F1 | split; [exact F2 | split; [reflexivity|]]].
  exact (proj2 (proj2 (prompt_injective _ _ _ _ _ _ F1 F2 eq_refl))).
Defined.

(** Counting any marker of the template, the begin-of-text and
    end-of-turn markers included. *)
Section Markers.

Variable p : str.
Variables kb ke ks ku ka : nat.

Hypothesis text_then_eot : no_straddle p EOT = true.
Hypothesis in_begin : forall rest,
  occurrences p (BEGIN_OF_TEXT ++ rest) = kb + occurrences p rest.
Hypothesis in_eot : forall rest,
  occurrences p (EOT ++ rest) = ke + occurrences p rest.
Hypothesis in_system : forall rest,
  occurrences p (SYSTEM_HEADER ++ rest) = ks + occurrences p rest.
Hypothesis in_user : forall rest,
  occurrences p (USER_HEADER ++ rest) = ku + occurrences p rest.
Hypothesis in_assistant : forall rest,
  occurrences p (ASSISTANT_HEADER ++ rest) = ka + occurrences p rest.

Lemma marker_block (t rest : str) :
  occurrences p (t ++ EOT ++ rest) = occurrences p t + ke + occurrences p rest.
Proof.
  rewrite occurrences_text by exact text_then_eot. rewrite in_eot. lia.
Qed.

Lemma marker_body (user_input : str) (chat_history : list (str * str)) :
  occurrences p (body user_input chat_history) =
  length chat_history * (ku + ka + 2 * ke) + (ku + ka + ke) +
  occurrences_in_history p chat_history + occurrences p (strip user_input).
Proof.
  induction chat_history as [|turn h IH].
  - rewrite body_nil, in_user, marker_block.
    rewrite <- (app_nil_r ASSISTANT_HEADER), in_assistant.
    cbn [length occurrences occurrences_in_history Nat.mul]. lia.
  - rewrite body_cons, in_user, marker_block, in_assistant, marker_block, IH.
    cbn [length occurrences_in_history]. rewrite Nat.mul_succ_l. lia.
Qed.

Lemma marker_get_prompt (user_input : str) (chat_history : list (str * str))
  (system_prompt : str) :
  occurrences p (get_prompt user_input chat_history system_prompt) =
  kb +
  (if nonempty system_prompt
   then ks + ke + occurrences p system_prompt else 0) +
  length chat_history * (ku + ka + 2 * ke) + (ku + ka + ke) +
  occurrences_in_history p chat_history + occurrences p (strip user_input).
Proof.
  rewrite get_prompt_shape, in_begin.
  destruct (nonempty system_prompt).
  - unfold system_text. rewrite <- !app_assoc.
    rewrite in_system, marker_block, marker_body. lia.
  - cbn [app]. rewrite marker_body. lia.
Qed.

End Markers.

Lemma eot_literals :
  no_straddle EOT EOT = true /\
  (forall rest, occurrences EOT (BEGIN_OF_TEXT ++ rest) =
                0 + occurrences EOT rest) /\
  (forall rest, occurrences EOT (EOT ++ rest) = 1 + occurrences EOT rest) /\
  (forall rest, occurrences EOT (SYSTEM_HEADER ++ rest) =
                0 + occurrences EOT rest) /\
  (forall rest, occurrences EOT (USER_HEADER ++ rest) =
                0 + occurrences EOT rest) /\
  (forall rest, occurrences EOT (ASSISTANT_HEADER ++ rest) =
                0 + occurrences EOT rest).
Proof. repeat split; intros; reflexivity. Qed.

Lemma begin_of_text_literals :
  no_straddle BEGIN_OF_TEXT EOT = true /\
  (forall rest, occurrences BEGIN_OF_TEXT (BEGIN_OF_TEXT ++ rest) =
                1 + occurrences BEGIN_OF_TEXT rest) /\
  (forall rest, occurrences BEGIN_OF_TEXT (EOT ++ rest) =
                0 + occurrences BEGIN_OF_TEXT rest) /\
  (forall rest, occurrences BEGIN_OF_TEXT (SYSTEM_HEADER ++ rest) =
                0 + occurrences BEGIN_OF_TEXT rest) /\
  (forall rest, occurrences BEGIN_OF_TEXT (USER_HEADER ++ rest) =
                0 + occurrences BEGIN_OF_TEXT rest) /\
  (forall rest, occurrences BEGIN_OF_TEXT (ASSISTANT_HEADER ++ rest) =
                0 + occurrences BEGIN_OF_TEXT rest).
Proof. repeat split; intros; reflexivity. Qed.

(** X5: every block is closed and the open assistant header is not:
    when no text contains the end-of-turn marker, the prompt of a
    k-turn history contains exactly 2k + 1 of them, and one more with a
    system prompt. *)
Theorem end_of_turn_count (user_input : str) (chat_history : list (str * str))
  (system_prompt : str) :
  texts_free EOT user_input chat_history system_prompt ->
  occurrences EOT (get_prompt user_input chat_history system_prompt) =
  2 * length chat_history + 1 + (if nonempty system_prompt then 1 else 0).
Proof.
  intros [Hu [Hs Hh]].
  destruct eot_literals as [H0 [H1 [H2 [H3 [H4 H5]]]]].
  rewrite (marker_get_prompt EOT 0 1 0 0 0 H0 H1 H2 H3 H4 H5).
  rewrite Hs, (texts_free_history _ _ Hh), (occurrences_strip_zero _ _ Hu).
  destruct (nonempty system_prompt); lia.
Qed.

Lemma end_of_turn_count_witness :
  texts_free EOT (lit "Hi") [(lit "Hello", lit "Hi there")] (lit "Be nice") /\
  occurrences EOT
    (get_prompt (lit "Hi") [(lit "Hello", lit "Hi there")] (lit "Be nice")) = 4.
Proof.
  assert (F : texts_free EOT (lit "Hi") [(lit "Hello", lit "Hi there")]
                (lit "Be nice")).
  { split; [reflexivity | split; [reflexivity|]].
    constructor; [split; reflexivity | constructor]. }
  split; [exact F|].
  exact (end_of_turn_count (lit "Hi") [(lit "Hello", lit "Hi there")]
           (lit "Be nice") F).
Defined.

(** X6: the begin-of-text marker is written once, at the very start:
    the prompt contains it once more for each time a text contains it,
    so exactly once when no text does. *)
Theorem begin_of_text_once (user_input : str) (chat_history : list (str * str))
  (system_prompt : str) :
  occurrences BEGIN_OF_TEXT
    (get_prompt user_input chat_history system_prompt) =
  1 + (if nonempty system_prompt
       then occurrences BEGIN_OF_TEXT system_prompt else 0) +
  occurrences_in_history BEGIN_OF_TEXT chat_history +
  occurrences BEGIN_OF_TEXT (strip user_input) /\
  (texts_free BEGIN_OF_TEXT user_input chat_history system_prompt ->
   occurrences BEGIN_OF_TEXT
     (get_prompt user_input chat_history system_prompt) = 1).
Proof.
  destruct begin_of_text_literals as [H0 [H1 [H2 [H3 [H4 H5]]]]].
  rewrite (marker_get_prompt BEGIN_OF_TEXT 1 0 0 0 0 H0 H1 H2 H3 H4 H5).
  split.
  - destruct (nonempty system_prompt); lia.
  - intros [Hu [Hs Hh]].
    rewrite Hs, (texts_free_history _ _ Hh), (occurrences_strip_zero _ _ Hu).
    destruct (nonempty system_prompt); lia.
Qed.

(** ** More on the generation loop *)

(** The whole output of a run: three opening lines, the three passes,
    three closing lines. *)
Lemma run_trace (E : Collaborators) (args : Args) :
  run E args =
  [Line (dashes 80); Line (lit "done"); Line (lit "finish to load")] ++
  pass_trace E args 0 ++ pass_trace E args 1 ++ pass_trace E args 2 ++
  [Line (dashes 80); Line (lit "done"); Line (lit "success shut down")].
Proof.
  unfold run, generation, iteration, pass_trace, pass_chunks, pass_output,
    pass_prompt, text_streamer.
  destruct (disable_streaming args).
  - reflexivity.
  - cbv [bind print for_each range seq now model_generate ret snd fst
         stdout clock_reads generate_calls effects start].
    cbn [app]. rewrite <- !app_assoc. reflexivity.
Qed.

Lemma streamed_chunks_map (T : Type) (chunks : list str) :
  streamed_chunks (List.map (@Streamed T) chunks) = chunks.
Proof.
  induction chunks as [|c l IH]; [reflexivity|].
  cbn [List.map]. unfold streamed_chunks in *. cbn [flat_map app].
  rewrite IH. reflexivity.
Qed.

Lemma streamed_chunks_app (T : Type) (a b : list (printed T)) :
  streamed_chunks (a ++ b) = streamed_chunks a ++ streamed_chunks b.
Proof. apply flat_map_app. Qed.

Lemma flat_map_streamed_nil (T A : Type) (f : printed T -> list A)
  (chunks : list str) :
  (forall c, f (Streamed c) = []) ->
  flat_map f (List.map (@Streamed T) chunks) = [].
Proof.
  intros Hf. induction chunks as [|c l IH]; [reflexivity|].
  cbn [List.map flat_map]. rewrite Hf, IH. reflexivity.
Qed.

Ltac project_trace :=
  repeat (rewrite flat_map_app; cbn [flat_map app]);
  rewrite ?flat_map_streamed_nil by reflexivity;
  cbn [app].

(** X7: with streaming left on, no decoded output is printed; what
    reaches the output between the banners is the text that each of the
    three generations hands to the streamer, in pass order, and an
    elapsed value is still printed after each pass. *)
Theorem streaming_passes (E : Collaborators) (args : Args) :
  disable_streaming args = false ->
  decoded_outputs (run E args) = [] /\
  streamed_chunks (run E args) =
    pass_chunks E args 0 ++ pass_chunks E args 1 ++ pass_chunks E args 2 /\
  inference_times (run E args) =
    List.map (fun i => tsub (clock_ops E) (time_time E (2 * i + 1))
                         (time_time E (2 * i))) (range 3).
Proof.
  intros H. repeat split.
  - unfold decoded_outputs. rewrite run_trace. unfold pass_trace. rewrite H.
    project_trace. reflexivity.
  - rewrite run_trace. unfold pass_trace. rewrite H.
    rewrite !streamed_chunks_app, !streamed_chunks_map.
    cbn [streamed_chunks flat_map app]. rewrite !app_nil_r. reflexivity.
  - unfold inference_times. rewrite run_trace. unfold pass_trace. rewrite H.
    project_trace. reflexivity.
Qed.

Lemma streaming_passes_witness :
  disable_streaming (default_args (lit "") false) = false /\
  decoded_outputs (run (echo ticking) (default_args (lit "") false)) = [] /\
  streamed_chunks (run (echo ticking) (default_args (lit "") false)) =
    [lit "42"; lit "42"; lit "42"].
Proof.
  split; [reflexivity|]. split.
  - exact (proj1 (streaming_passes (echo ticking)
             (default_args (lit "") false) eq_refl)).
  - exact (proj1 (proj2 (streaming_passes (echo ticking)
             (default_args (lit "") false) eq_refl))).
Defined.

(** X8: the three passes are independent of one another and of the
    streaming option in what they send: each prints and encodes the same
    prompt, made of the begin-of-text marker, one user block with the
    stripped [--prompt] and the open assistant header, with no system
    block and no history, and each prints the same input length. *)
Theorem same_prompt_each_pass (E : Collaborators) (args : Args) :
  let sent :=
    BEGIN_OF_TEXT ++ USER_HEADER ++ strip (prompt args) ++ EOT ++
    ASSISTANT_HEADER in
  printed_prompts (run E args) = [sent; sent; sent] /\
  input_lengths (run E args) =
    [length (encode E sent); length (encode E sent); length (encode E sent)].
Proof.
  intros sent.
  assert (Hp : pass_prompt args = sent).
  { unfold pass_prompt. rewrite get_prompt_shape. reflexivity. }
  split.
  - unfold printed_prompts. rewrite run_trace. unfold pass_trace. rewrite Hp.
    destruct (disable_streaming args); project_trace; reflexivity.
  - unfold input_lengths. rewrite run_trace. unfold pass_trace. rewrite Hp.
    destruct (disable_streaming args); project_trace; reflexivity.
Qed.

(** ** More on loading *)

Lemma load_existing (F : FileSystem) (args : Args) (d : disk F) :
  loads_keep F (lowbit_path args) ->
  nonempty (lowbit_path args) = true ->
  path_exists F d (lowbit_path args) = true ->
  load_model F args d =
  ([load_low_bit (lowbit_path args) (max_context_len args)
      (max_prompt_len args) (negb (disable_transpose_value_cache args));
    tokenizer_from_pretrained (repo_id_or_model_path args)],
   after F (tokenizer_from_pretrained (repo_id_or_model_path args))
     (after F (load_low_bit (lowbit_path args) (max_context_len args)
                 (max_prompt_len args)
                 (negb (disable_transpose_value_cache args))) d)).
Proof.
  intros K Hn He. unfold load_model. rewrite Hn, He. cbn [negb orb andb].
  rewrite !K by reflexivity. rewrite He. reflexivity.
Qed.

Lemma lowbit_exists_after_load (F : FileSystem) (args : Args) (d : disk F) :
  loads_keep F (lowbit_path args) ->
  save_creates F (lowbit_path args) ->
  nonempty (lowbit_path args) = true ->
  path_exists F (snd (load_model F args d)) (lowbit_path args) = true.
Proof.
  intros K C Hn. destruct (path_exists F d (lowbit_path args)) eqn:He.
  - rewrite (load_existing F args d K Hn He). cbn [snd].
    rewrite !K by reflexivity. exact He.
  - unfold load_model. rewrite Hn, He. cbn [negb orb andb].
    rewrite !K by reflexivity. rewrite He. cbn [negb snd]. apply C.
Qed.

Lemma path_list_save_creates (path : str) : save_creates path_list path.
Proof.
  intros d. cbn [path_exists after path_list existsb].
  assert (R : str_eqb path path = true).
  { induction path as [|c l IH]; [reflexivity|].
    cbn [str_eqb]. rewrite N.eqb_refl. exact IH. }
  rewrite R. reflexivity.
Qed.

(** X9: whatever is on disk, the script makes one model-loading call
    first, either [from_pretrained] or [load_low_bit] and the latter
    exactly when a low-bit path is given and exists; it then loads the
    tokenizer from the model path, also when the model came from the
    low-bit folder; and the only call that may follow is one
    [save_low_bit] to the low-bit path, never made when no low-bit path
    is given. *)
Theorem load_calls_shape (F : FileSystem) (args : Args) (d : disk F) :
  let pretrained :=
    from_pretrained (repo_id_or_model_path args) (max_context_len args)
      (max_prompt_len args) (quantization_group_size args)
      (negb (disable_transpose_value_cache args)) in
  let lowbit :=
    load_low_bit (lowbit_path args) (max_context_len args)
      (max_prompt_len args) (negb (disable_transpose_value_cache args)) in
  exists model rest,
    fst (load_model F args d) =
      model :: tokenizer_from_pretrained (repo_id_or_model_path args) :: rest /\
    (model = lowbit /\ nonempty (lowbit_path args) = true /\
       path_exists F d (lowbit_path args) = true \/
     model = pretrained /\
       (nonempty (lowbit_path args) = false \/
        path_exists F d (lowbit_path args) = false)) /\
    (rest = [] \/
     rest = [save_low_bit (lowbit_path args)] /\
       nonempty (lowbit_path args) = true).
Proof.
  intros pretrained lowbit. unfold load_model. fold pretrained lowbit.
  destruct (nonempty (lowbit_path args)) eqn:Hn; cbn [negb orb andb].
  - destruct (path_exists F d (lowbit_path args)) eqn:He; cbn [negb].
    + exists lowbit.
      match goal with |- context [if negb ?b then _ else _] => destruct b end;
        cbn [negb fst]; eexists; (split; [reflexivity|]);
        (split; [left; repeat split | ]).
      * left. reflexivity.
      * right. split; reflexivity.
    + exists pretrained.
      match goal with |- context [if negb ?b then _ else _] => destruct b end;
        cbn [negb fst]; eexists; (split; [reflexivity|]);
        (split; [right; split; [reflexivity | right; reflexivity] | ]).
      * left. reflexivity.
      * right. split; reflexivity.
  - exists pretrained, []. cbn [fst]. split; [reflexivity|].
    split; [right; split; [reflexivity | left; reflexivity] | left; reflexivity].
Qed.

(** X10: a second start finds what the first one left: given a low-bit
    path, and as long as saving creates the folder and loading leaves
    it alone, the script started again loads the model with
    [load_low_bit] and saves nothing, whether the first start had loaded
    or had saved the low-bit model. *)
Theorem second_start_loads_lowbit (F : FileSystem) (args : Args) (d : disk F) :
  loads_keep F (lowbit_path args) ->
  save_creates F (lowbit_path args) ->
  nonempty (lowbit_path args) = true ->
  load_model_again F args d =
  [load_low_bit (lowbit_path args) (max_context_len args)
     (max_prompt_len args) (negb (disable_transpose_value_cache args));
   tokenizer_from_pretrained (repo_id_or_model_path args)].
Proof.
  intros K C Hn. unfold load_model_again.
  rewrite (load_existing F args _ K Hn (lowbit_exists_after_load F args d K C Hn)).
  reflexivity.
Qed.

Lemma second_start_loads_lowbit_witness :
  loads_keep path_list (lit "llama3-lowbit") /\
  save_creates path_list (lit "llama3-lowbit") /\
  fst (load_model path_list (default_args (lit "llama3-lowbit") false) []) =
    [from_pretrained (lit "meta-llama/Meta-Llama-3-8B-Instruct") 1024 512 0 true;
     tokenizer_from_pretrained (lit "meta-llama/Meta-Llama-3-8B-Instruct");
     save_low_bit (lit "llama3-lowbit")] /\
  load_model_again path_list (default_args (lit "llama3-lowbit") false) [] =
    [load_low_bit (lit "llama3-lowbit") 1024 512 true;
     tokenizer_from_pretrained (lit "meta-llama/Meta-Llama-3-8B-Instruct")].
Proof.
  split; [apply path_list_loads_keep|].
  split; [apply path_list_save_creates|].
  split; [reflexivity|].
  exact (second_start_loads_lowbit path_list
           (default_args (lit "llama3-lowbit") false) []
           (path_list_loads_keep (lit "llama3-lowbit"))
           (path_list_save_creates (lit "llama3-lowbit")) eq_refl).
Defined.

(** X11: once the low-bit folder exists, [--quantization_group_size] has
    no effect: the calls made, and the disk left, are the same for
    every value of it. *)
Theorem quantization_ignored_on_lowbit (F : FileSystem) (args : Args)
  (d : disk F) (q : Z) :
  nonempty (lowbit_path args) = true ->
  path_exists F d (lowbit_path args) = true ->
  load_model F (with_quantization_group_size args q) d = load_model F args d.
Proof.
  intros Hn He. unfold load_model.
  cbn [with_quantization_group_size lowbit_path repo_id_or_model_path
       max_context_len max_prompt_len disable_transpose_value_cache
       quantization_group_size].
  rewrite Hn, He. reflexivity.
Qed.

Lemma quantization_ignored_on_lowbit_witness :
  nonempty (lit "llama3-lowbit") = true /\
  path_exists path_list [lit "llama3-lowbit"] (lit "llama3-lowbit") = true /\
  fst (load_model path_list
         (with_quantization_group_size
            (default_args (lit "llama3-lowbit") false) 128)
         [lit "llama3-lowbit"]) =
  fst (load_model path_list (default_args (lit "llama3-lowbit") false)
         [lit "llama3-lowbit"]).
Proof.
  split; [reflexivity|]. split; [reflexivity|].
  exact (f_equal fst (quantization_ignored_on_lowbit path_list
           (default_args (lit "llama3-lowbit") false) [lit "llama3-lowbit"] 128
           eq_refl eq_refl)).
Defined.
